(** * Overshoot tool (OVERSHOOT_TOOL_v1.py): a shallow embedding

    The script is a Maya panel whose two buttons run [apply_overshoot] with
    direction [1] or [-1].  Python floats are IEEE-754 binary64 numbers; they
    are modelled by the executable specification of the Standard Library
    ([SpecFloat], precision 53, maximal exponent 1024), so every rounding,
    infinity and NaN of the source arithmetic is present in the model.  The
    host ([maya.cmds]) is modelled as a snapshot that answers the queries and
    as the list of commands the script sends to it. *)

From Stdlib Require Import ZArith List String Ascii Bool Lia.
From Stdlib Require Import SpecFloat.
From stdpp Require Import base option list strings gmap.

Import ListNotations.
Local Open Scope Z_scope.

(** ** Python floats *)

Module PyFloat.

Definition prec : Z := 53.
Definition emax : Z := 1024.

Definition float : Type := spec_float.

Definition add : float -> float -> float := SFadd prec emax.
Definition sub : float -> float -> float := SFsub prec emax.
Definition mul : float -> float -> float := SFmul prec emax.
Definition div : float -> float -> float := SFdiv prec emax.
Definition opp : float -> float := SFopp.

(** Python's [==], [<] and [<=] on floats. *)
Definition eqb : float -> float -> bool := SFeqb.
Definition ltb : float -> float -> bool := SFltb.
Definition leb : float -> float -> bool := SFleb.

(** [m * 2^e], correctly rounded; [of_int z] is the conversion Python
    applies to an [int] operand of a mixed [float * int] product.  It is
    exact on the two directions [1] and [-1] that the script passes. *)
Definition of_dyadic (m e : Z) : float := binary_normalize prec emax m e false.
Definition of_int (z : Z) : float := of_dyadic z 0.

Definition valid (x : float) : bool := valid_binary prec emax x.

Definition is_nan (x : float) : bool :=
  match x with S754_nan => true | _ => false end.

(** Neither an infinity nor NaN. *)
Definition is_finite (x : float) : bool :=
  match x with S754_zero _ | S754_finite _ _ _ => true | _ => false end.

Definition is_zero (x : float) : bool :=
  match x with S754_zero _ => true | _ => false end.

Definition zero : float := S754_zero false.
Definition infinity : float := S754_infinity false.
Definition nan : float := S754_nan.

End PyFloat.

Abbreviation float := PyFloat.float.

(** ** The computation (lines 27-28) *)

Definition calculate_overshoot (value velocity intensity : float) : float :=
  PyFloat.add value (PyFloat.mul velocity intensity).

(** ** Python dictionaries

    [objects_data] and [obj_data] are iterated in insertion order, so they are
    association lists; [d[k] = v] replaces the value of a key that is already
    present, at its place, and appends a new key at the end. *)

Definition dict (V : Type) : Type := list (string * V).

Fixpoint dict_set {V : Type} (d : dict V) (k : string) (v : V) : dict V :=
  match d with
  | [] => [(k, v)]
  | (k', v') :: d' =>
      if decide (k' = k) then (k', v) :: d' else (k', v') :: dict_set d' k v
  end.

(** ** The panel: widgets and module globals *)

(** The callbacks wired to the widgets by [create_window]. *)
Inductive Callback : Type :=
| CbOvershootPositive
| CbOvershootNegative
| CbToggleAllCheckboxes.

(** A widget handle: the host returns a name for every control it creates;
    the model names a control by its creation index in the window. *)
Definition handle : Type := nat.

(** The controls that hold state or a callback.  Layouts and separators hold
    neither and are left out. *)
Inductive Widget : Type :=
| CheckBox (label : string) (value : bool) (changeCommand : option Callback)
| FloatSliderGrp (label : string)
    (minValue maxValue fieldMinValue fieldMaxValue value : float)
| Button (label : string) (command : Callback).

Definition UI : Type := list Widget.

(** [cmds.checkBox(h, query=True, value=True)]; [None] is the host's
    RuntimeError for a handle that is not a check box. *)
Definition checkBox_query (ui : UI) (h : handle) : option bool :=
  match ui !! h with
  | Some (CheckBox _ v _) => Some v
  | _ => None
  end.

(** [cmds.checkBox(h, edit=True, value=v)]. *)
Definition checkBox_edit (ui : UI) (h : handle) (v : bool) : option UI :=
  match ui !! h with
  | Some (CheckBox l _ c) => Some (<[h := CheckBox l v c]> ui)
  | _ => None
  end.

(** [cmds.floatSliderGrp(h, query=True, value=True)]. *)
Definition floatSliderGrp_query (ui : UI) (h : handle) : option float :=
  match ui !! h with
  | Some (FloatSliderGrp _ _ _ _ _ v) => Some v
  | _ => None
  end.

(** The module-level variables of lines 19-25. *)
Record Globals : Type := {
  slider : option handle;
  color_checkbox : option handle;
  translate_checkboxes : list handle;
  rotate_checkboxes : list handle;
  color_checkboxes : list handle;
  check_all : option handle;
  intensity_slider : option handle
}.

Definition module_globals : Globals :=
  {| slider := None; color_checkbox := None; translate_checkboxes := [];
     rotate_checkboxes := []; color_checkboxes := []; check_all := None;
     intensity_slider := None |}.

(** ** The scene *)

Inductive Which : Type := previous | next.

(** What the host answers to the queries of [apply_overshoot].  All of them
    are made before the first write, so one snapshot answers them. *)
Record Scene : Type := {
  (** [cmds.currentTime(query=True)] *)
  currentTime : float;
  (** [cmds.ls(selection=True)] *)
  ls_selection : list string;
  (** [cmds.listAttr(obj, keyable=True, st=["translate*", "rotate*"])] *)
  listAttr : string -> option (list string);
  (** [cmds.findKeyframe(obj, attribute=attr, which=w, time=(t,))] *)
  findKeyframe : string -> string -> Which -> float -> option float;
  (** [cmds.getAttr(plug, time=t)] *)
  getAttr : string -> float -> float
}.

(** The commands the script sends to the host. *)
Inductive HostCmd : Type :=
| Select (items : list string)
| SetAttr (plug : string) (value : float)
| SetKeyframe (obj attr : string) (time value : float)
| MelEval (script : string)
| Refresh.

(** [cmds.select(items)] replaces the active list; no other command of the
    script changes it. *)
Definition selection_step (sel : list string) (c : HostCmd) : list string :=
  match c with
  | Select items => items
  | _ => sel
  end.

Definition selection_after (sel : list string) (tr : list HostCmd) : list string :=
  foldl selection_step sel tr.

(** ** The applier (lines 30-94) *)

Definition channels : list string :=
  ["translateX"; "translateY"; "translateZ"; "rotateX"; "rotateY"; "rotateZ"]%string.

(** The dictionary of lines 34-41; [None] is the IndexError of a list of
    check boxes with fewer than three handles. *)
Definition attribute_checkboxes (g : Globals) : option (gmap string handle) :=
  tx ← translate_checkboxes g !! 0%nat;
  ty ← translate_checkboxes g !! 1%nat;
  tz ← translate_checkboxes g !! 2%nat;
  rx ← rotate_checkboxes g !! 0%nat;
  ry ← rotate_checkboxes g !! 1%nat;
  rz ← rotate_checkboxes g !! 2%nat;
  Some (list_to_map
          [("translateX", tx); ("translateY", ty); ("translateZ", tz);
           ("rotateX", rx); ("rotateY", ry); ("rotateZ", rz)]%string).

(** [obj + "." + attr] *)
Definition plug (obj attr : string) : string := obj +:+ "." +:+ attr.

Definition quote : string := String (ascii_of_nat 34) EmptyString.
Definition newline : string := String (ascii_of_nat 10) EmptyString.

(** The MEL script of lines 87-90. *)
Definition mel_script : string :=
  newline +:+
  "                performSetKeyframeArgList 1 {" +:+ quote +:+ "0" +:+ quote
    +:+ ", " +:+ quote +:+ "animationList" +:+ quote +:+ "};" +:+ newline +:+
  "                keyframe -time `currentTime -q` -tds 1;" +:+ newline +:+
  "            ".

Section Applier.

Variable g : Globals.
Variable ui : UI.
Variable s : Scene.
Variable direction : Z.

(** Lines 62-73 for one attribute: the value to write, or [None] when the
    guard of line 65 fails and the attribute gets no entry in [obj_data]. *)
Definition channel_value (current_frame intensity : float) (obj attr : string)
  : option float :=
  let previous_key := findKeyframe s obj attr previous current_frame in
  let next_key := findKeyframe s obj attr next current_frame in
  match previous_key, next_key with
  | Some previous_key, Some next_key =>
      if negb (PyFloat.eqb previous_key next_key) then
        let prev_value := getAttr s (plug obj attr) previous_key in
        let next_value := getAttr s (plug obj attr) next_key in
        let current_value := getAttr s (plug obj attr) current_frame in
        let velocity :=
          PyFloat.mul (PyFloat.sub next_value prev_value) (PyFloat.of_int direction) in
        let overshoot_value := calculate_overshoot current_value velocity intensity in
        Some overshoot_value
      else None
  | _, _ => None
  end.

(** The loop of lines 53-73 over the keyable attributes of one object. *)
Fixpoint collect_attrs (attribute_checkboxes : gmap string handle)
    (current_frame intensity : float) (obj : string) (attrs : list string)
    (obj_data : dict float) : option (dict float) :=
  match attrs with
  | [] => Some obj_data
  | attr :: attrs' =>
      let continue := collect_attrs attribute_checkboxes current_frame intensity obj attrs' in
      if bool_decide (attr ∉ channels) then continue obj_data
      else
        cb ← attribute_checkboxes !! attr;
        checked ← checkBox_query ui cb;
        if negb checked then continue obj_data
        else
          match channel_value current_frame intensity obj attr with
          | Some overshoot_value => continue (dict_set obj_data attr overshoot_value)
          | None => continue obj_data
          end
  end.

(** The loop of lines 46-76 over the selected objects. *)
Fixpoint collect_objects (attribute_checkboxes : gmap string handle)
    (current_frame intensity : float) (selected_objects : list string)
    (objects_data : dict (dict float)) : option (dict (dict float)) :=
  match selected_objects with
  | [] => Some objects_data
  | obj :: objs' =>
      let continue := collect_objects attribute_checkboxes current_frame intensity objs' in
      match listAttr s obj with
      | None => continue objects_data
      | Some attrs =>
          obj_data ← collect_attrs attribute_checkboxes current_frame intensity obj attrs [];
          match obj_data with
          | [] => continue objects_data
          | _ :: _ => continue (dict_set objects_data obj obj_data)
          end
      end
  end.

(** Lines 82-84: the two writes of every entry of [obj_data]. *)
Definition write_attrs (current_frame : float) (obj : string) (obj_data : dict float)
  : list HostCmd :=
  flat_map (fun '(attr, value) =>
              [SetAttr (plug obj attr) value;
               SetKeyframe obj attr current_frame value]) obj_data.

(** Lines 80-91: the write loop over [objects_data]. *)
Fixpoint write_objects (current_frame : float) (objects_data : dict (dict float))
  : option (list HostCmd) :=
  match objects_data with
  | [] => Some []
  | (obj, obj_data) :: rest =>
      cb ← color_checkbox g;
      colored ← checkBox_query ui cb;
      cmds ← write_objects current_frame rest;
      Some (Select [obj] :: write_attrs current_frame obj obj_data
              ++ (if (colored : bool) then [MelEval mel_script] else []) ++ cmds)
  end.

(** [apply_overshoot(direction)]: the commands sent to the host, or [None]
    when a Python or host exception ends the call. *)
Definition apply_overshoot : option (list HostCmd) :=
  let current_frame := currentTime s in
  h ← intensity_slider g;
  intensity ← floatSliderGrp_query ui h;
  attribute_checkboxes ← attribute_checkboxes g;
  let selected_objects := ls_selection s in
  objects_data ← collect_objects attribute_checkboxes current_frame intensity
                   selected_objects [];
  cmds ← write_objects current_frame objects_data;
  Some (Select selected_objects :: cmds ++ [Select selected_objects; Refresh]).

End Applier.

(** Lines 96-100. *)
Definition overshoot_positive (g : Globals) (ui : UI) (s : Scene) : option (list HostCmd) :=
  apply_overshoot g ui s 1.

Definition overshoot_negative (g : Globals) (ui : UI) (s : Scene) : option (list HostCmd) :=
  apply_overshoot g ui s (-1).

(** ** The panel (lines 102-160) *)

Fixpoint edit_checkBoxes (ui : UI) (hs : list handle) (v : bool) : option UI :=
  match hs with
  | [] => Some ui
  | checkbox :: hs' =>
      ui' ← checkBox_edit ui checkbox v;
      edit_checkBoxes ui' hs' v
  end.

(** Lines 102-106. *)
Definition toggle_all_checkboxes (g : Globals) (ui : UI) : option UI :=
  h ← check_all g;
  all_value ← checkBox_query ui h;
  edit_checkBoxes ui (translate_checkboxes g ++ rotate_checkboxes g) all_value.

(** A creation command appends the control to the window and returns its
    handle. *)
Definition new_control (ui : UI) (w : Widget) : handle * UI :=
  (length ui, ui ++ [w]).

(** The literal [0.1] of line 125: the float nearest to 1/10. *)
Definition one_tenth : float := PyFloat.div (PyFloat.of_int 1) (PyFloat.of_int 10).

Record State : Type := { st_globals : Globals; st_ui : UI }.

(** Lines 108-160.  A window of the same name is deleted with its controls
    (lines 109-110), so the new window starts without any; the globals that
    the function does not assign ([slider], [color_checkboxes]) keep their
    value. *)
Definition create_window (st : State) : option State :=
  let ui : UI := [] in
  let '(intensity_slider', ui) :=
    new_control ui (FloatSliderGrp "Intensity" (PyFloat.of_int 0) (PyFloat.of_int 2)
                      (PyFloat.of_int 0) (PyFloat.of_int 20) one_tenth) in
  let '(check_all', ui) :=
    new_control ui (CheckBox "Check All" true (Some CbToggleAllCheckboxes)) in
  let '(tx, ui) := new_control ui (CheckBox "Translate X" false None) in
  let '(ty, ui) := new_control ui (CheckBox "Translate Y" false None) in
  let '(tz, ui) := new_control ui (CheckBox "Translate Z" false None) in
  let '(rx, ui) := new_control ui (CheckBox "Rotate X" false None) in
  let '(ry, ui) := new_control ui (CheckBox "Rotate Y" false None) in
  let '(rz, ui) := new_control ui (CheckBox "Rotate Z" false None) in
  let '(_, ui) := new_control ui (Button "Positive Direction" CbOvershootPositive) in
  let '(_, ui) := new_control ui (Button "Negative Direction" CbOvershootNegative) in
  let '(color_checkbox', ui) := new_control ui (CheckBox "Green" false None) in
  let g :=
    {| slider := slider (st_globals st);
       color_checkbox := Some color_checkbox';
       translate_checkboxes := [tx; ty; tz];
       rotate_checkboxes := [rx; ry; rz];
       color_checkboxes := color_checkboxes (st_globals st);
       check_all := Some check_all';
       intensity_slider := Some intensity_slider' |} in
  ui ← toggle_all_checkboxes g ui;
  Some {| st_globals := g; st_ui := ui |}.

(** The panel before the script is run. *)
Definition initial_state : State := {| st_globals := module_globals; st_ui := [] |}.

(** *** The user's actions on the panel

    The host owns the controls.  It stores the new value of a check box and
    then runs its change command; the field of a slider group accepts a
    number and keeps it between [fieldMinValue] and [fieldMaxValue]; a button
    runs its command. *)

Definition run_change_command (cb : Callback) (st : State) : option State :=
  match cb with
  | CbToggleAllCheckboxes =>
      ui ← toggle_all_checkboxes (st_globals st) (st_ui st);
      Some {| st_globals := st_globals st; st_ui := ui |}
  | CbOvershootPositive | CbOvershootNegative => Some st
  end.

Definition user_sets_checkBox (st : State) (h : handle) (b : bool) : option State :=
  match st_ui st !! h with
  | Some (CheckBox l _ c) =>
      let st' := {| st_globals := st_globals st;
                    st_ui := <[h := CheckBox l b c]> (st_ui st) |} in
      match c with
      | Some cb => run_change_command cb st'
      | None => Some st'
      end
  | _ => None
  end.

Definition field_clamp (fieldMinValue fieldMaxValue x : float) : float :=
  if PyFloat.ltb x fieldMinValue then fieldMinValue
  else if PyFloat.ltb fieldMaxValue x then fieldMaxValue
  else x.

Definition user_enters_value (st : State) (h : handle) (x : float) : option State :=
  match st_ui st !! h with
  | Some (FloatSliderGrp l mn mx fmn fmx _) =>
      Some {| st_globals := st_globals st;
              st_ui := <[h := FloatSliderGrp l mn mx fmn fmx (field_clamp fmn fmx x)]>
                         (st_ui st) |}
  | _ => None
  end.

Definition user_presses (st : State) (s : Scene) (h : handle) : option (list HostCmd) :=
  match st_ui st !! h with
  | Some (Button _ CbOvershootPositive) => overshoot_positive (st_globals st) (st_ui st) s
  | Some (Button _ CbOvershootNegative) => overshoot_negative (st_globals st) (st_ui st) s
  | _ => None
  end.

(** The panel states the user can bring about once the window exists. *)
Inductive reachable : State -> Prop :=
| reach_create st st' :
    create_window st = Some st' -> reachable st'
| reach_checkBox st h b st' :
    reachable st -> user_sets_checkBox st h b = Some st' -> reachable st'
| reach_value st h x st' :
    reachable st -> PyFloat.is_nan x = false ->
    user_enters_value st h x = Some st' -> reachable st'.

(** *** The request of a button press

    What [apply_overshoot] reads from the panel: the intensity (line 32), its
    direction argument, the channels whose check box is set (line 58) and the
    colour flag (line 86). *)
Record Request : Type := {
  req_intensity : float;
  req_direction : Z;
  req_channels : list string;
  req_color : bool
}.

Definition channel_checked (g : Globals) (ui : UI) (attr : string) : option bool :=
  acb ← attribute_checkboxes g;
  cb ← acb !! attr;
  checkBox_query ui cb.

Definition enabled_channels (g : Globals) (ui : UI) : list string :=
  filter (fun attr => channel_checked g ui attr = Some true) channels.

Definition request (g : Globals) (ui : UI) (direction : Z) : option Request :=
  h ← intensity_slider g;
  intensity ← floatSliderGrp_query ui h;
  cb ← color_checkbox g;
  color ← checkBox_query ui cb;
  Some {| req_intensity := intensity;
          req_direction := direction;
          req_channels := enabled_channels g ui;
          req_color := color |}.

(** The request of the button with handle [h]. *)
Definition request_of_press (st : State) (h : handle) : option Request :=
  match st_ui st !! h with
  | Some (Button _ CbOvershootPositive) => request (st_globals st) (st_ui st) 1
  | Some (Button _ CbOvershootNegative) => request (st_globals st) (st_ui st) (-1)
  | _ => None
  end.

(** ** Vocabulary of the statements *)

Definition succeeds {A : Type} (o : option A) : bool :=
  match o with Some _ => true | None => false end.

(** The handles in the globals name controls of the right kind, so that no
    query of [apply_overshoot] raises. *)
Definition panel_ready (g : Globals) (ui : UI) : bool :=
  succeeds (intensity_slider g ≫= floatSliderGrp_query ui)
  && succeeds (color_checkbox g ≫= checkBox_query ui)
  && forallb (fun attr => succeeds (channel_checked g ui attr)) channels.

(** The conditions under which lines 46-73 give [attr] of [obj] an entry
    [value] in [objects_data]. *)
Definition processed (g : Globals) (ui : UI) (s : Scene) (direction : Z)
    (obj attr : string) (value : float) : Prop :=
  obj ∈ ls_selection s
  /\ (exists attrs, listAttr s obj = Some attrs /\ attr ∈ attrs)
  /\ attr ∈ channels
  /\ channel_checked g ui attr = Some true
  /\ exists h intensity,
       intensity_slider g = Some h
       /\ floatSliderGrp_query ui h = Some intensity
       /\ channel_value s direction (currentTime s) intensity obj attr = Some value.

(** A command that writes the channel [attr] of [obj]. *)
Definition writes_channel (obj attr : string) (c : HostCmd) : Prop :=
  match c with
  | SetAttr p _ => p = plug obj attr
  | SetKeyframe obj' attr' _ _ => obj' = obj /\ attr' = attr
  | _ => False
  end.

(** No [setAttr] and no [setKeyframe] of the trace is for the channel. *)
Definition not_written (obj attr : string) (tr : list HostCmd) : Prop :=
  forall c, c ∈ tr -> ~ writes_channel obj attr c.

(** Every command of a trace with the active selection it finds. *)
Fixpoint selection_trace (sel : list string) (tr : list HostCmd)
  : list (list string * HostCmd) :=
  match tr with
  | [] => []
  | c :: tr' => (sel, c) :: selection_trace (selection_step sel c) tr'
  end.

(** A command that may change the channel [attr] of [obj], given the active
    selection it finds: a write of the channel, or the MEL script of lines
    87-90, whose [performSetKeyframeArgList] is the host's Set Key on the
    objects of the active selection.  Which attributes of a selected object
    Set Key keys is an option of the host (by default all keyable ones), so
    the script counts for every channel of a selected object. *)
Definition touches_channel (obj attr : string) (entry : list string * HostCmd)
  : Prop :=
  match entry.2 with
  | MelEval _ => obj ∈ entry.1
  | c => writes_channel obj attr c
  end.

(** No command of the trace, run from the active selection [sel], may change
    the channel. *)
Definition untouched (sel : list string) (obj attr : string) (tr : list HostCmd)
  : Prop :=
  forall entry, entry ∈ selection_trace sel tr -> ~ touches_channel obj attr entry.

(** The colour flag as line 86 reads it. *)
Definition color_flag (g : Globals) (ui : UI) : option bool :=
  color_checkbox g ≫= checkBox_query ui.

(** The loops of lines 46-76 in closed form: a loop that sets [d[x] = v] for
    the [x] of [xs] on which [f] gives a value [v], and passes over the
    others. *)
Definition dict_collect {V : Type} (f : string -> option V) (xs : list string)
    (d0 : dict V) : dict V :=
  foldl (fun d x => match f x with Some v => dict_set d x v | None => d end) d0 xs.

(** The entry of [attr] in the [obj_data] of [obj], if lines 54-73 make one
    for the request [r]. *)
Definition attr_entry (s : Scene) (r : Request) (obj attr : string) : option float :=
  if bool_decide (attr ∈ req_channels r) then
    channel_value s (req_direction r) (currentTime s) (req_intensity r) obj attr
  else None.

(** The entry of [obj] in [objects_data], if lines 47-76 make one. *)
Definition object_entry (s : Scene) (r : Request) (obj : string) : option (dict float) :=
  match listAttr s obj with
  | None => None
  | Some attrs =>
      match dict_collect (attr_entry s r obj) attrs [] with
      | [] => None
      | obj_data => Some obj_data
      end
  end.

(** The commands of lines 81-91 for one entry of [objects_data]. *)
Definition object_cmds (current_frame : float) (colored : bool)
    (entry : string * dict float) : list HostCmd :=
  Select [entry.1] :: write_attrs current_frame entry.1 entry.2
    ++ (if colored then [MelEval mel_script] else []).

(** The commands of a call, from the request and the scene. *)
Definition run_request (s : Scene) (r : Request) : list HostCmd :=
  Select (ls_selection s)
    :: flat_map (object_cmds (currentTime s) (req_color r))
         (dict_collect (object_entry s r) (ls_selection s) [])
    ++ [Select (ls_selection s); Refresh].

Definition is_write (c : HostCmd) : bool :=
  match c with
  | SetAttr _ _ | SetKeyframe _ _ _ _ => true
  | _ => false
  end.

(** The controls of the window in creation order, with the values they hold. *)
Definition panel_ui (maxValue intensity : float) (all tx ty tz rx ry rz green : bool)
  : UI :=
  [FloatSliderGrp "Intensity" (PyFloat.of_int 0) maxValue
     (PyFloat.of_int 0) (PyFloat.of_int 20) intensity;
   CheckBox "Check All" all (Some CbToggleAllCheckboxes);
   CheckBox "Translate X" tx None;
   CheckBox "Translate Y" ty None;
   CheckBox "Translate Z" tz None;
   CheckBox "Rotate X" rx None;
   CheckBox "Rotate Y" ry None;
   CheckBox "Rotate Z" rz None;
   Button "Positive Direction" CbOvershootPositive;
   Button "Negative Direction" CbOvershootNegative;
   CheckBox "Green" green None].

(** The handles [create_window] stores in the globals. *)
Definition created_globals (g : Globals) : Prop :=
  intensity_slider g = Some 0%nat
  /\ check_all g = Some 1%nat
  /\ translate_checkboxes g = [2; 3; 4]%nat
  /\ rotate_checkboxes g = [5; 6; 7]%nat
  /\ color_checkbox g = Some 10%nat.

(** The invariant of the panel: the globals name the controls of the window
    and the intensity lies in the range of its field. *)
Definition panel_inv (st : State) : Prop :=
  created_globals (st_globals st)
  /\ exists maxValue intensity all tx ty tz rx ry rz green,
       st_ui st = panel_ui maxValue intensity all tx ty tz rx ry rz green
       /\ PyFloat.leb (PyFloat.of_int 0) intensity = true
       /\ PyFloat.leb intensity (PyFloat.of_int 20) = true.

(** ** Sample panels and scenes *)

(** The panel right after [create_window]. *)
Definition fresh_panel : State :=
  default initial_state (create_window initial_state).

Definition one_half : float := PyFloat.of_dyadic 1 (-1).

(** The fresh panel after the user has entered 0.5 as intensity. *)
Definition half_panel : State :=
  default fresh_panel (user_enters_value fresh_panel 0%nat one_half).

(** A scene with the object [pCube1] selected, whose only keyable attribute
    is [translateX]; [keys] are the neighbouring key times the host reports
    and [value_at] the value of the attribute at a time. *)
Definition one_channel_scene (current : float) (keys : Which -> option float)
    (value_at : float -> float) : Scene :=
  {| currentTime := current;
     ls_selection := ["pCube1"%string];
     listAttr := fun _ => Some ["translateX"%string];
     findKeyframe := fun _ _ which _ => keys which;
     getAttr := fun _ t => value_at t |}.

Definition keys_1_3 (which : Which) : option float :=
  match which with
  | previous => Some (PyFloat.of_int 1)
  | next => Some (PyFloat.of_int 3)
  end.

(** Keys 0.0 at time 1 and 10.0 at time 3; the value at the current time 2
    is 10.0. *)
Definition moving_scene : Scene :=
  one_channel_scene (PyFloat.of_int 2) keys_1_3
    (fun t => if PyFloat.eqb t (PyFloat.of_int 1) then PyFloat.of_int 0
              else PyFloat.of_int 10).

(** Keys 5.0 at time 1 and 5.0 at time 3; the value is 5.0 throughout. *)
Definition flat_scene : Scene :=
  one_channel_scene (PyFloat.of_int 2) keys_1_3 (fun _ => PyFloat.of_int 5).


(** The host reports no previous key. *)
Definition no_previous_scene : Scene :=
  one_channel_scene (PyFloat.of_int 2)
    (fun which => match which with previous => None | next => Some (PyFloat.of_int 3) end)
    (fun _ => PyFloat.of_int 5).

(** Keys 0.0 at time 1 and 2^53 at time 3; the value at the current time 2
    is 1.0. *)
Definition large_scene : Scene :=
  one_channel_scene (PyFloat.of_int 2) keys_1_3
    (fun t => if PyFloat.eqb t (PyFloat.of_int 1) then PyFloat.of_int 0
              else if PyFloat.eqb t (PyFloat.of_int 3) then PyFloat.of_dyadic 1 53
              else PyFloat.of_int 1).

(** The characters of a string, first to last. *)
Fixpoint chars (x : string) : list ascii :=
  match x with
  | EmptyString => []
  | String c x' => c :: chars x'
  end.

(** ** Vocabulary of the further properties *)

(** The channels a trace inserts keyframes on, in the order of the trace. *)
Definition keyed_channels (tr : list HostCmd) : list (string * string) :=
  omap (fun c => match c with
                 | SetKeyframe obj attr _ _ => Some (obj, attr)
                 | _ => None
                 end) tr.

(** The control [w] after [cmds.checkBox(..., edit=True, value=v)]. *)
Definition with_value (v : bool) (w : Widget) : Widget :=
  match w with
  | CheckBox l _ c => CheckBox l v c
  | _ => w
  end.

(** The fresh panel after the user has cleared "Check All". *)
Definition cleared_panel : State :=
  default fresh_panel (user_sets_checkBox fresh_panel 1%nat false).

(** [pCube1] is listed twice in the selection and [translateX] twice among
    its attributes. *)
Definition twice_selected_scene : Scene :=
  {| currentTime := PyFloat.of_int 2;
     ls_selection := ["pCube1"; "pCube1"]%string;
     listAttr := fun _ => Some ["translateX"; "translateX"]%string;
     findKeyframe := fun _ _ which _ => keys_1_3 which;
     getAttr := fun _ _ => PyFloat.of_int 5 |}.

(** The guard of line 65: both neighbouring keys are reported and their
    times differ. *)
Definition key_guard (s : Scene) (obj attr : string) : bool :=
  match findKeyframe s obj attr previous (currentTime s),
        findKeyframe s obj attr next (currentTime s) with
  | Some previous_key, Some next_key => negb (PyFloat.eqb previous_key next_key)
  | _, _ => false
  end.

(** The channels that pass lines 54-65, object by object in the order of the
    selection and, for an object, in the order of its keyable attributes. *)
Definition written_channels (g : Globals) (ui : UI) (s : Scene)
  : list (string * string) :=
  flat_map
    (fun obj =>
       (fun attr => (obj, attr))
         <$> filter (fun attr => attr ∈ channels
                                 /\ channel_checked g ui attr = Some true
                                 /\ key_guard s obj attr = true)
               (default [] (listAttr s obj)))
    (ls_selection s).

(** A write or a MEL script finds the object it is meant for as the whole
    active selection. *)
Definition under_own_selection (entry : list string * HostCmd) : Prop :=
  match entry.2 with
  | SetAttr p _ => exists obj attr, entry.1 = [obj] /\ p = plug obj attr
  | SetKeyframe obj _ _ _ => entry.1 = [obj]
  | MelEval _ => exists obj, entry.1 = [obj]
  | _ => True
  end.

(** The fresh panel after the user has set the colour flag "Green". *)
Definition green_panel : State :=
  default fresh_panel (user_sets_checkBox fresh_panel 10%nat true).

(** The green panel after the user has cleared "Translate Y". *)
Definition green_without_y_panel : State :=
  default green_panel (user_sets_checkBox green_panel 3%nat false).

(** [pCube1] with the keyable channels [translateX], keyed at times 1 and 3
    with values 0.0 and 10.0, and [translateY], whose neighbouring keys are
    [keys_y]. *)
Definition two_channel_scene (keys_y : Which -> option float) : Scene :=
  {| currentTime := PyFloat.of_int 2;
     ls_selection := ["pCube1"%string];
     listAttr := fun _ => Some ["translateX"; "translateY"]%string;
     findKeyframe := fun _ attr which _ =>
                       if decide (attr = "translateX"%string) then keys_1_3 which
                       else keys_y which;
     getAttr := fun _ t => if PyFloat.eqb t (PyFloat.of_int 1) then PyFloat.of_int 0
                           else PyFloat.of_int 10 |}.


(** Two objects with two keyable channels each, keys at times 1 and 3. *)
Definition two_objects_scene : Scene :=
  {| currentTime := PyFloat.of_int 2;
     ls_selection := ["pCube1"; "pSphere1"]%string;
     listAttr := fun _ => Some ["rotateZ"; "visibility"; "translateX"]%string;
     findKeyframe := fun _ _ which _ => keys_1_3 which;
     getAttr := fun _ _ => PyFloat.of_int 5 |}.

(** The label [create_window] gives the check box of each channel. *)
Definition channel_labels : list (string * string) :=
  [("translateX", "Translate X"); ("translateY", "Translate Y");
   ("translateZ", "Translate Z"); ("rotateX", "Rotate X");
   ("rotateY", "Rotate Y"); ("rotateZ", "Rotate Z")]%string.

(** ** Facts about the float operations *)

Lemma binary_round_aux_negb (sx : bool) (mx ex : Z) (lx : location) :
  binary_round_aux PyFloat.prec PyFloat.emax (negb sx) mx ex lx
  = SFopp (binary_round_aux PyFloat.prec PyFloat.emax sx mx ex lx).
Proof.
  unfold binary_round_aux.
  destruct (shr_fexp _ _ mx ex lx) as [mrs' e'].
  destruct (shr_fexp _ _ _ e' loc_Exact) as [mrs'' e''].
  destruct (shr_m mrs''); try reflexivity.
  destruct (Z.leb _ _); reflexivity.
Qed.

Lemma mul_opp_r (x y : float) :
  PyFloat.mul x (PyFloat.opp y) = PyFloat.opp (PyFloat.mul x y).
Proof.
  destruct x as [sx|sx| |sx mx ex], y as [sy|sy| |sy my ey]; cbn;
    rewrite <- ?negb_xorb_r; try reflexivity.
  apply binary_round_aux_negb.
Qed.

Lemma mul_opp_l (x y : float) :
  PyFloat.mul (PyFloat.opp x) y = PyFloat.opp (PyFloat.mul x y).
Proof.
  destruct x as [sx|sx| |sx mx ex], y as [sy|sy| |sy my ey]; cbn;
    rewrite <- ?negb_xorb_l; try reflexivity.
  apply binary_round_aux_negb.
Qed.

Lemma of_int_minus_one : PyFloat.of_int (-1) = PyFloat.opp (PyFloat.of_int 1).
Proof. reflexivity. Qed.

(** A finite number times a zero is a zero. *)
Lemma mul_finite_zero (w i : float) :
  PyFloat.is_finite w = true -> PyFloat.is_zero i = true ->
  PyFloat.is_zero (PyFloat.mul w i) = true.
Proof. destruct w, i; cbn; congruence. Qed.

(** Adding a zero gives back a number that compares equal, and the number
    itself unless it is a zero too. *)
Lemma add_zero_r (v z : float) :
  PyFloat.is_nan v = false -> PyFloat.is_zero z = true ->
  PyFloat.eqb (PyFloat.add v z) v = true
  /\ (PyFloat.is_zero v = false -> PyFloat.add v z = v).
Proof.
  intros Hv Hz. destruct z as [sz| | |]; try discriminate.
  destruct v as [sv|sv| |sv mv ev]; try discriminate.
  - split; [|discriminate]. destruct sv, sz; reflexivity.
  - split; [|reflexivity]. destruct sv; reflexivity.
  - split; [|reflexivity]. cbn. unfold PyFloat.eqb, SFeqb, SFcompare.
    destruct sv; rewrite Z.compare_refl, ?Pos.compare_cont_refl; reflexivity.
Qed.

(** Exchanging the operands of a comparison reverses its result. *)
Lemma SFcompare_swap (x y : float) (c : comparison) :
  SFcompare x y = Some c -> SFcompare y x = Some (CompOpp c).
Proof.
  destruct x as [sx|sx| |sx mx ex], y as [sy|sy| |sy my ey]; cbn;
    try discriminate; intros [= <-];
    try (destruct sx; reflexivity); try (destruct sy; reflexivity);
    try (destruct sx, sy; reflexivity).
  f_equal.
  pose proof (Z.compare_antisym ey ex) as Hz.
  pose proof (Pos.compare_cont_antisym my mx Eq) as Hp. cbn in Hp.
  destruct sx, sy; cbn; try reflexivity;
    destruct (ey ?= ex)%Z, (ex ?= ey)%Z; try discriminate Hz; cbn; try reflexivity;
    destruct (Pos.compare_cont Eq my mx), (Pos.compare_cont Eq mx my);
    try discriminate Hp; reflexivity.
Qed.

Lemma SFcompare_not_nan (x y : float) :
  PyFloat.is_nan x = false -> PyFloat.is_nan y = false ->
  exists c, SFcompare x y = Some c.
Proof.
  destruct x as [sx|sx| |sx mx ex], y as [sy|sy| |sy my ey]; cbn;
    try discriminate; eauto.
Qed.

(** On numbers, [not (x < y)] is [y <= x]. *)
Lemma leb_of_not_ltb (x y : float) :
  PyFloat.is_nan x = false -> PyFloat.is_nan y = false ->
  PyFloat.ltb x y = false -> PyFloat.leb y x = true.
Proof.
  intros Hx Hy. destruct (SFcompare_not_nan x y Hx Hy) as [c Hc].
  unfold PyFloat.ltb, PyFloat.leb, SFltb, SFleb.
  rewrite (SFcompare_swap _ _ _ Hc), Hc. destruct c; cbn; congruence.
Qed.

Lemma leb_refl_not_nan (x : float) :
  PyFloat.is_nan x = false -> PyFloat.leb x x = true.
Proof.
  intros Hx. destruct (SFcompare_not_nan x x Hx Hx) as [c Hc].
  pose proof (SFcompare_swap _ _ _ Hc) as Hc'. rewrite Hc in Hc'.
  unfold PyFloat.leb, SFleb. rewrite Hc. destruct c; try reflexivity.
  discriminate.
Qed.

(** The value the field keeps lies in the range of the field. *)
Lemma field_clamp_range (lo hi x : float) :
  PyFloat.is_nan lo = false -> PyFloat.is_nan hi = false ->
  PyFloat.is_nan x = false -> PyFloat.leb lo hi = true ->
  PyFloat.leb lo (field_clamp lo hi x) = true
  /\ PyFloat.leb (field_clamp lo hi x) hi = true.
Proof.
  intros Hlo Hhi Hx Hle. unfold field_clamp.
  destruct (PyFloat.ltb x lo) eqn:H1.
  - split; [apply leb_refl_not_nan|]; assumption.
  - destruct (PyFloat.ltb hi x) eqn:H2.
    + split; [|apply leb_refl_not_nan]; assumption.
    + split; apply leb_of_not_ltb; assumption.
Qed.

(** ** Facts about dictionaries and plug names *)

Lemma dict_set_elem {V : Type} (d : dict V) (k : string) (v : V) :
  (k, v) ∈ dict_set d k v.
Proof.
  induction d as [|[k' v'] d IH]; cbn.
  - apply list_elem_of_here.
  - destruct (decide (k' = k)) as [->|Hne].
    + apply list_elem_of_here.
    + apply list_elem_of_further, IH.
Qed.

Lemma dict_set_other {V : Type} (d : dict V) (k k' : string) (v v' : V) :
  k' <> k -> (k', v') ∈ d -> (k', v') ∈ dict_set d k v.
Proof.
  intros Hne. induction d as [|[k1 v1] d IH]; cbn; intros Hin.
  - inversion Hin.
  - apply elem_of_cons in Hin as [Heq|Hin].
    + inversion Heq; subst k1 v1.
      destruct (decide (k' = k)); [contradiction|apply list_elem_of_here].
    + destruct (decide (k1 = k)); apply list_elem_of_further; auto.
Qed.

Lemma dict_set_inv {V : Type} (d : dict V) (k k' : string) (v v' : V) :
  (k', v') ∈ dict_set d k v -> (k' = k /\ v' = v) \/ (k', v') ∈ d.
Proof.
  induction d as [|[k1 v1] d IH]; cbn; intros Hin.
  - apply list_elem_of_singleton in Hin. inversion Hin; auto.
  - destruct (decide (k1 = k)) as [->|Hne].
    + apply elem_of_cons in Hin as [Heq|Hin].
      * inversion Heq; auto.
      * right. apply list_elem_of_further, Hin.
    + apply elem_of_cons in Hin as [Heq|Hin].
      * inversion Heq. right. apply list_elem_of_here.
      * destruct (IH Hin) as [?|?]; [auto|].
        right. apply list_elem_of_further. assumption.
Qed.

Lemma chars_app (x y : string) : chars (x +:+ y) = chars x ++ chars y.
Proof. induction x as [|c x IH]; simpl; [reflexivity|]. now rewrite IH. Qed.

Lemma chars_inj (x y : string) : chars x = chars y -> x = y.
Proof.
  revert y. induction x as [|c x IH]; intros [|c' y]; cbn; try discriminate.
  - reflexivity.
  - intros Heq. inversion Heq. f_equal. auto.
Qed.

(** The channel is read back from the end of the plug name: two of the six
    channel names never end the same plug. *)
Lemma plug_inj (obj obj' attr attr' : string) :
  attr ∈ channels -> attr' ∈ channels ->
  plug obj attr = plug obj' attr' -> obj = obj' /\ attr = attr'.
Proof.
  intros Ha Ha' Heq.
  apply (f_equal chars) in Heq. unfold plug in Heq.
  rewrite !chars_app in Heq. apply (f_equal (@rev ascii)) in Heq.
  rewrite !rev_app_distr in Heq.
  unfold channels in Ha, Ha'.
  repeat (apply elem_of_cons in Ha as [->|Ha]);
    [| | | | | |inversion Ha];
    repeat (apply elem_of_cons in Ha' as [->|Ha']);
    try (inversion Ha'; fail);
    cbn in Heq; try discriminate Heq;
    (split; [|reflexivity]);
    apply chars_inj, rev_inj; congruence.
Qed.

(** ** The collecting loops *)

Lemma succeeds_Some {A : Type} (o : option A) :
  succeeds o = true -> exists a, o = Some a.
Proof. destruct o; [eauto|discriminate]. Qed.

Lemma dict_collect_cons {V : Type} (f : string -> option V) x xs d0 :
  dict_collect f (x :: xs) d0
  = dict_collect f xs (match f x with Some v => dict_set d0 x v | None => d0 end).
Proof. reflexivity. Qed.

(** The entries after the loop: those it started with and those [f] gives. *)
Lemma dict_collect_spec {V : Type} (f : string -> option V) xs : forall d0,
  (forall k v, (k, v) ∈ d0 -> f k = Some v) ->
  forall k v, (k, v) ∈ dict_collect f xs d0 <-> (k, v) ∈ d0 \/ (k ∈ xs /\ f k = Some v).
Proof.
  induction xs as [|x xs IH]; intros d0 Hd0 k v.
  - cbn. split; [auto|]. intros [?|[Hin _]]; [assumption|inversion Hin].
  - rewrite dict_collect_cons. destruct (f x) as [w|] eqn:Hfx.
    + rewrite IH.
      * split.
        -- intros [Hin|[Hk Hf]].
           ++ apply dict_set_inv in Hin as [[-> ->]|Hin]; [|auto].
              right. split; [apply list_elem_of_here|assumption].
           ++ right. split; [apply list_elem_of_further|]; assumption.
        -- intros [Hin|[Hk Hf]].
           ++ left. destruct (decide (k = x)) as [->|Hne].
              ** apply Hd0 in Hin. replace v with w by congruence.
                 apply dict_set_elem.
              ** apply dict_set_other; assumption.
           ++ apply elem_of_cons in Hk as [->|Hk]; [|auto].
              left. replace v with w by congruence. apply dict_set_elem.
      * intros k' v' Hin. apply dict_set_inv in Hin as [[-> ->]|Hin]; auto.
    + rewrite IH by assumption. split.
      * intros [?|[? ?]]; [auto|]. right. split; [|assumption].
        apply list_elem_of_further. assumption.
      * intros [?|[Hk Hf]]; [auto|].
        apply elem_of_cons in Hk as [->|Hk]; [congruence|auto].
Qed.

Lemma dict_collect_nil_spec {V : Type} (f : string -> option V) xs k v :
  (k, v) ∈ dict_collect f xs [] <-> k ∈ xs /\ f k = Some v.
Proof.
  rewrite dict_collect_spec.
  - split; [intros [Hin|?]; [inversion Hin|assumption]|auto].
  - intros ? ? Hin. inversion Hin.
Qed.

Section Collecting.

Variable g : Globals.
Variable ui : UI.
Variable s : Scene.
Variable acb : gmap string handle.
Variable r : Request.

Hypothesis Hacb : attribute_checkboxes g = Some acb.
Hypothesis Hchecked :
  forall attr, attr ∈ channels -> exists b, channel_checked g ui attr = Some b.
Hypothesis Hchannels : req_channels r = enabled_channels g ui.

Lemma checked_lookup attr :
  channel_checked g ui attr = acb !! attr ≫= checkBox_query ui.
Proof. unfold channel_checked. rewrite Hacb. reflexivity. Qed.

Lemma elem_of_enabled_channels attr :
  attr ∈ enabled_channels g ui
  <-> attr ∈ channels /\ channel_checked g ui attr = Some true.
Proof. unfold enabled_channels. rewrite list_elem_of_filter. tauto. Qed.

(** With a ready panel the loop over the attributes does not raise and is
    its closed form. *)
Lemma collect_attrs_closed obj attrs : forall d0,
  collect_attrs ui s (req_direction r) acb (currentTime s) (req_intensity r)
    obj attrs d0
  = Some (dict_collect (attr_entry s r obj) attrs d0).
Proof.
  induction attrs as [|attr attrs IH]; intros d0; [reflexivity|].
  rewrite dict_collect_cons. cbn [collect_attrs]. unfold attr_entry at 2.
  rewrite Hchannels.
  destruct (decide (attr ∈ channels)) as [Hin|Hnin].
  - rewrite (bool_decide_eq_false_2 (attr ∉ channels)) by tauto.
    destruct (Hchecked attr Hin) as [b Hb]. pose proof Hb as Hq.
    rewrite checked_lookup in Hq.
    destruct (acb !! attr) as [cb|]; [|discriminate]. cbn in Hq |- *.
    rewrite Hq. cbn. destruct b; cbn.
    + rewrite bool_decide_eq_true_2
        by (apply elem_of_enabled_channels; split; assumption).
      destruct (channel_value _ _ _ _ _ _); apply IH.
    + rewrite bool_decide_eq_false_2; [apply IH|].
      rewrite elem_of_enabled_channels. intros [_ ?]. congruence.
  - rewrite (bool_decide_eq_true_2 (attr ∉ channels)) by assumption.
    rewrite bool_decide_eq_false_2; [apply IH|].
    rewrite elem_of_enabled_channels. tauto.
Qed.

Lemma collect_objects_closed objs : forall d0,
  collect_objects ui s (req_direction r) acb (currentTime s) (req_intensity r)
    objs d0
  = Some (dict_collect (object_entry s r) objs d0).
Proof.
  induction objs as [|obj objs IH]; intros d0; [reflexivity|].
  rewrite dict_collect_cons. cbn [collect_objects]. unfold object_entry at 2.
  destruct (listAttr s obj) as [attrs|]; [|apply IH].
  rewrite collect_attrs_closed. cbn.
  destruct (dict_collect _ attrs []); apply IH.
Qed.

End Collecting.

(** ** The trace of [apply_overshoot] *)

Lemma write_objects_closed g ui cur cb colored objects_data :
  color_checkbox g = Some cb -> checkBox_query ui cb = Some colored ->
  write_objects g ui cur objects_data
  = Some (flat_map (object_cmds cur colored) objects_data).
Proof.
  intros Hcb Hq. induction objects_data as [|[obj obj_data] rest IH]; [reflexivity|].
  cbn [write_objects flat_map]. rewrite Hcb. cbn. rewrite Hq. cbn. rewrite IH. cbn.
  unfold object_cmds. cbn. now rewrite <- !app_assoc.
Qed.

Lemma panel_ready_elim g ui :
  panel_ready g ui = true ->
  exists h intensity cb colored acb,
    intensity_slider g = Some h
    /\ floatSliderGrp_query ui h = Some intensity
    /\ color_checkbox g = Some cb
    /\ checkBox_query ui cb = Some colored
    /\ attribute_checkboxes g = Some acb
    /\ forall attr, attr ∈ channels -> exists b, channel_checked g ui attr = Some b.
Proof.
  unfold panel_ready. rewrite !andb_true_iff. intros [[Hs Hc] Hall].
  apply succeeds_Some in Hs as [intensity Hs], Hc as [colored Hc].
  destruct (intensity_slider g) as [h|]; [|discriminate].
  destruct (color_checkbox g) as [cb|]; [|discriminate].
  cbn in Hs, Hc. rewrite forallb_forall in Hall.
  assert (Hch : forall attr, attr ∈ channels ->
                             exists b, channel_checked g ui attr = Some b).
  { intros attr Hin. apply succeeds_Some, Hall, list_elem_of_In, Hin. }
  destruct (Hch "translateX"%string) as [b Hb]; [apply list_elem_of_here|].
  unfold channel_checked in Hb.
  destruct (attribute_checkboxes g) as [acb|]; [|discriminate].
  exists h, intensity, cb, colored, acb. auto 10.
Qed.

(** With a ready panel the call does not raise: it reads its request and
    sends the commands of that request. *)
Lemma apply_overshoot_closed g ui s direction :
  panel_ready g ui = true ->
  exists r,
    request g ui direction = Some r
    /\ apply_overshoot g ui s direction = Some (run_request s r).
Proof.
  intros Hready.
  destruct (panel_ready_elim _ _ Hready)
    as (h & intensity & cb & colored & acb & Hh & Hi & Hcb & Hcol & Hacb & Hch).
  unfold request, apply_overshoot. rewrite Hh. cbn. rewrite Hi. cbn.
  rewrite Hcb. cbn. rewrite Hcol, Hacb. cbn. eexists. split; [reflexivity|].
  set (r := {| req_intensity := intensity; req_direction := direction;
               req_channels := enabled_channels g ui; req_color := colored |}).
  rewrite (collect_objects_closed g ui s acb r Hacb Hch eq_refl). cbn.
  rewrite (write_objects_closed g ui _ cb colored _ Hcb Hcol). reflexivity.
Qed.

Lemma request_fields g ui direction r :
  request g ui direction = Some r ->
  exists h cb,
    intensity_slider g = Some h
    /\ floatSliderGrp_query ui h = Some (req_intensity r)
    /\ color_checkbox g = Some cb
    /\ checkBox_query ui cb = Some (req_color r)
    /\ req_direction r = direction
    /\ req_channels r = enabled_channels g ui.
Proof.
  unfold request. intros Hr.
  destruct (intensity_slider g) as [h|]; [|discriminate]. cbn in Hr.
  destruct (floatSliderGrp_query ui h) as [intensity|] eqn:Hi; [|discriminate].
  cbn in Hr. destruct (color_checkbox g) as [cb|]; [|discriminate]. cbn in Hr.
  destruct (checkBox_query ui cb) as [colored|] eqn:Hc; [|discriminate].
  injection Hr as <-. exists h, cb. cbn. auto 10.
Qed.

(** The entries of [objects_data] are the processed channels. *)
Lemma objects_data_spec g ui s direction r obj attr v :
  request g ui direction = Some r ->
  (exists obj_data,
      (obj, obj_data) ∈ dict_collect (object_entry s r) (ls_selection s) []
      /\ (attr, v) ∈ obj_data)
  <-> processed g ui s direction obj attr v.
Proof.
  intros Hr.
  destruct (request_fields _ _ _ _ Hr) as (h & cb & Hh & Hi & _ & _ & Hd & Hen).
  assert (Hentry : forall a w,
             attr_entry s r obj a = Some w <->
             a ∈ channels /\ channel_checked g ui a = Some true
             /\ channel_value s direction (currentTime s) (req_intensity r) obj a
                = Some w).
  { intros a w. unfold attr_entry. rewrite Hen, Hd. case_bool_decide as Hin.
    - unfold enabled_channels in Hin. apply list_elem_of_filter in Hin. tauto.
    - split; [discriminate|]. intros (? & ? & _). exfalso. apply Hin.
      unfold enabled_channels. apply list_elem_of_filter. tauto. }
  assert (Hobject : forall obj_data,
             object_entry s r obj = Some obj_data <->
             exists attrs, listAttr s obj = Some attrs
               /\ dict_collect (attr_entry s r obj) attrs [] = obj_data
               /\ obj_data <> []).
  { intros obj_data. unfold object_entry.
    destruct (listAttr s obj) as [attrs|].
    - destruct (dict_collect _ attrs []) as [|e od] eqn:Hdc.
      + split; [discriminate|]. intros (? & [= <-] & He & Hne).
        rewrite Hdc in He. symmetry in He. contradiction.
      + split.
        * intros [= <-]. exists attrs. rewrite Hdc. repeat split. discriminate.
        * intros (? & [= <-] & He & _). rewrite Hdc in He. now rewrite He.
    - split; [discriminate|]. intros (? & ? & _). discriminate. }
  unfold processed. split.
  - intros (obj_data & Hobj & Hattr).
    apply dict_collect_nil_spec in Hobj as [Hsel Hobj].
    apply Hobject in Hobj as (attrs & Hattrs & <- & _).
    apply dict_collect_nil_spec in Hattr as [Hin Hv].
    apply Hentry in Hv as (? & ? & ?). repeat split; eauto 10.
  - intros (Hsel & (attrs & Hattrs & Hin) & Hch & Hck & h' & i' & Hh' & Hi' & Hv).
    assert (i' = req_intensity r) as -> by congruence.
    assert (Hav : (attr, v) ∈ dict_collect (attr_entry s r obj) attrs []).
    { apply dict_collect_nil_spec. split; [assumption|]. apply Hentry. auto. }
    exists (dict_collect (attr_entry s r obj) attrs []). split; [|assumption].
    apply dict_collect_nil_spec. split; [assumption|].
    apply Hobject. exists attrs. split; [assumption|]. split; [reflexivity|].
    intros Hnil.
    rewrite Hnil in Hav. inversion Hav.
Qed.

Lemma elem_of_write_attrs cur obj obj_data c :
  c ∈ write_attrs cur obj obj_data <->
  exists attr v, (attr, v) ∈ obj_data
    /\ (c = SetAttr (plug obj attr) v \/ c = SetKeyframe obj attr cur v).
Proof.
  unfold write_attrs. rewrite list_elem_of_In, in_flat_map. split.
  - intros ([attr v] & Hin & Hc). exists attr, v.
    rewrite list_elem_of_In. split; [assumption|].
    cbn in Hc. intuition congruence.
  - intros (attr & v & Hin & Hc). exists (attr, v).
    rewrite <- list_elem_of_In. split; [assumption|].
    cbn. intuition congruence.
Qed.

(** The writes of a call are those of the processed channels. *)
Lemma writes_of_request g ui s direction r c :
  request g ui direction = Some r ->
  is_write c = true ->
  c ∈ run_request s r <->
  exists obj attr v, processed g ui s direction obj attr v
    /\ (c = SetAttr (plug obj attr) v
        \/ c = SetKeyframe obj attr (currentTime s) v).
Proof.
  intros Hr Hw. unfold run_request.
  assert (Hmid : c ∈ flat_map (object_cmds (currentTime s) (req_color r))
                       (dict_collect (object_entry s r) (ls_selection s) [])
                 <-> exists obj obj_data attr v,
                       (obj, obj_data) ∈ dict_collect (object_entry s r)
                                            (ls_selection s) []
                       /\ (attr, v) ∈ obj_data
                       /\ (c = SetAttr (plug obj attr) v
                           \/ c = SetKeyframe obj attr (currentTime s) v)).
  { rewrite list_elem_of_In, in_flat_map. split.
    - intros ([obj obj_data] & Hin & Hc). apply list_elem_of_In in Hin, Hc.
      unfold object_cmds in Hc. cbn in Hc.
      apply elem_of_cons in Hc as [->|Hc]; [discriminate Hw|].
      apply elem_of_app in Hc as [Hc|Hc].
      + apply elem_of_write_attrs in Hc as (attr & v & ? & ?). eauto 10.
      + destruct (req_color r); [|inversion Hc].
        apply list_elem_of_singleton in Hc as ->. discriminate Hw.
    - intros (obj & obj_data & attr & v & Hobj & Hattr & Hc).
      exists (obj, obj_data). rewrite <- !list_elem_of_In. split; [assumption|].
      unfold object_cmds. cbn. apply list_elem_of_further, elem_of_app. left.
      apply elem_of_write_attrs. eauto. }
  rewrite elem_of_cons, elem_of_app, Hmid. split.
  - intros [->|[(obj & obj_data & attr & v & Hobj & Hattr & Hc)|Hc]].
    + discriminate Hw.
    + exists obj, attr, v. split; [|assumption].
      apply (objects_data_spec g ui s direction r); eauto.
    + apply elem_of_cons in Hc as [->|Hc]; [discriminate Hw|].
      apply list_elem_of_singleton in Hc as ->. discriminate Hw.
  - intros (obj & attr & v & Hp & Hc). right. left.
    apply (objects_data_spec g ui s direction r) in Hp
      as (obj_data & ? & ?); eauto 10.
Qed.

(** A channel of the six that is not processed gets no write. *)
Lemma unprocessed_not_written g ui s direction r obj attr :
  request g ui direction = Some r ->
  attr ∈ channels ->
  (forall v, ~ processed g ui s direction obj attr v) ->
  not_written obj attr (run_request s r).
Proof.
  intros Hr Hch Hno c Hin Hw.
  assert (Hisw : is_write c = true) by (destruct c; cbn in Hw; tauto).
  apply (writes_of_request g ui s direction r c Hr Hisw) in Hin
    as (obj' & attr' & v & Hp & [->| ->]); cbn in Hw.
  - assert (Hch' : attr' ∈ channels) by apply Hp.
    destruct (plug_inj _ _ _ _ Hch' Hch Hw) as [-> ->]. exact (Hno v Hp).
  - destruct Hw as [-> ->]. exact (Hno v Hp).
Qed.

Lemma object_entry_not_nil s r obj obj_data :
  object_entry s r obj = Some obj_data -> exists attr v, (attr, v) ∈ obj_data.
Proof.
  unfold object_entry. destruct (listAttr s obj) as [attrs|]; [|discriminate].
  destruct (dict_collect _ attrs []) as [|[attr v] d]; [discriminate|].
  intros [= <-]. exists attr, v. apply list_elem_of_here.
Qed.

Lemma selection_trace_app (sel : list string) (l1 l2 : list HostCmd) :
  selection_trace sel (l1 ++ l2)
  = selection_trace sel l1 ++ selection_trace (selection_after sel l1) l2.
Proof.
  revert sel. induction l1 as [|c l1 IH]; intros sel; [reflexivity|].
  cbn. now rewrite IH.
Qed.

Lemma selection_trace_elem (sel sel' : list string) (c : HostCmd) (tr : list HostCmd) :
  (sel', c) ∈ selection_trace sel tr -> c ∈ tr.
Proof.
  revert sel. induction tr as [|c0 tr IH]; intros sel Hin; [inversion Hin|].
  cbn in Hin. apply elem_of_cons in Hin as [[= _ ->]|Hin].
  - apply list_elem_of_here.
  - apply list_elem_of_further, (IH _ Hin).
Qed.

(** The writes of an object do not change the selection. *)
Lemma selection_trace_write_attrs cur obj (obj_data : dict float) sel
    (tail : list HostCmd) :
  selection_trace sel (write_attrs cur obj obj_data ++ tail)
  = ((fun c => (sel, c)) <$> write_attrs cur obj obj_data)
    ++ selection_trace sel tail.
Proof.
  induction obj_data as [|[attr v] d IH]; [reflexivity|].
  unfold write_attrs in *. cbn. now rewrite IH.
Qed.

(** The MEL script is sent only with the colour flag set, and then with one
    object of [objects_data] as the whole selection. *)
Lemma mel_in_flat_map cur colored (objects_data : dict (dict float)) :
  forall sel sel' script,
    (sel', MelEval script)
      ∈ selection_trace sel (flat_map (object_cmds cur colored) objects_data) ->
    colored = true
    /\ exists obj obj_data, sel' = [obj] /\ (obj, obj_data) ∈ objects_data.
Proof.
  induction objects_data as [|[obj od] d IH]; intros sel sel' script Hin;
    [inversion Hin|].
  cbn [flat_map] in Hin. rewrite selection_trace_app in Hin.
  apply elem_of_app in Hin as [Hin|Hin].
  - unfold object_cmds in Hin. cbn [fst snd selection_trace selection_step] in Hin.
    apply elem_of_cons in Hin as [Hin|Hin]; [discriminate Hin|].
    rewrite selection_trace_write_attrs in Hin.
    apply elem_of_app in Hin as [Hin|Hin].
    + apply list_elem_of_fmap in Hin as (c & [= _ <-] & Hc).
      apply elem_of_write_attrs in Hc as (? & ? & _ & [Hc|Hc]); discriminate Hc.
    + destruct colored; [|inversion Hin]. split; [reflexivity|].
      apply list_elem_of_singleton in Hin. injection Hin as -> _.
      exists obj, od. split; [reflexivity|apply list_elem_of_here].
  - destruct (IH _ _ _ Hin) as (Hcol & obj' & od' & Hsel & Hd).
    split; [assumption|]. exists obj', od'.
    split; [assumption|apply list_elem_of_further, Hd].
Qed.

Lemma mel_in_run_request g ui s direction r sel sel' script :
  request g ui direction = Some r ->
  (sel', MelEval script) ∈ selection_trace sel (run_request s r) ->
  req_color r = true
  /\ exists obj attr v, sel' = [obj] /\ processed g ui s direction obj attr v.
Proof.
  intros Hr Hin. unfold run_request in Hin. cbn [selection_trace] in Hin.
  apply elem_of_cons in Hin as [Hin|Hin]; [discriminate Hin|].
  rewrite selection_trace_app in Hin. apply elem_of_app in Hin as [Hin|Hin].
  - apply mel_in_flat_map in Hin as (Hcol & obj & od & Hsel & Hd).
    split; [assumption|].
    pose proof Hd as Hd'. apply dict_collect_nil_spec in Hd' as [_ He].
    apply object_entry_not_nil in He as (attr & v & Hav).
    exists obj, attr, v. split; [assumption|].
    apply (objects_data_spec g ui s direction r obj attr v Hr). eauto.
  - cbn in Hin. apply elem_of_cons in Hin as [Hin|Hin]; [discriminate Hin|].
    apply list_elem_of_singleton in Hin. discriminate Hin.
Qed.

(** A channel of the six that is not processed is not touched either, when
    the colour flag is off or no channel of its object is processed. *)
Lemma unprocessed_untouched g ui s direction r sel obj attr :
  request g ui direction = Some r ->
  attr ∈ channels ->
  (forall v, ~ processed g ui s direction obj attr v) ->
  req_color r = false
  \/ (forall attr' v, ~ processed g ui s direction obj attr' v) ->
  untouched sel obj attr (run_request s r).
Proof.
  intros Hr Hch Hno Hquiet [sel' c] Hin Ht. unfold touches_channel in Ht.
  destruct c; cbn in Ht; try contradiction.
  - apply selection_trace_elem in Hin.
    exact (unprocessed_not_written g ui s direction r obj attr Hr Hch Hno _ Hin Ht).
  - apply selection_trace_elem in Hin.
    exact (unprocessed_not_written g ui s direction r obj attr Hr Hch Hno _ Hin Ht).
  - apply (mel_in_run_request g ui s direction r _ _ _ Hr) in Hin
      as (Hcol & obj' & attr' & v & -> & Hp).
    apply list_elem_of_singleton in Ht as ->.
    destruct Hquiet as [Hoff|Hnone]; [congruence|exact (Hnone _ _ Hp)].
Qed.

Lemma color_flag_request g ui direction r :
  request g ui direction = Some r -> color_flag g ui = Some (req_color r).
Proof.
  intros Hr. destruct (request_fields _ _ _ _ Hr) as (_ & cb & _ & _ & Hc & Hq & _).
  unfold color_flag. rewrite Hc. exact Hq.
Qed.

(** Without the colour flag the call sends no MEL script. *)
Lemma no_mel_without_color (s : Scene) (r : Request) (script : string) :
  req_color r = false -> MelEval script ∉ run_request s r.
Proof.
  intros Hcol. unfold run_request. rewrite Hcol.
  rewrite elem_of_cons, elem_of_app, list_elem_of_In, in_flat_map.
  intros [Hc|[([obj obj_data] & _ & Hc)|Hc]].
  - discriminate Hc.
  - unfold object_cmds in Hc. cbn in Hc. rewrite app_nil_r in Hc.
    destruct Hc as [Hc|Hc]; [discriminate Hc|].
    apply list_elem_of_In, elem_of_write_attrs in Hc as (? & ? & _ & [Hc|Hc]);
      discriminate Hc.
  - apply elem_of_cons in Hc as [Hc|Hc]; [discriminate Hc|].
    apply list_elem_of_singleton in Hc. discriminate Hc.
Qed.

(** ** The panel invariant *)

Lemma create_window_result st :
  create_window st
  = Some {| st_globals :=
              {| slider := slider (st_globals st);
                 color_checkbox := Some 10%nat;
                 translate_checkboxes := [2; 3; 4]%nat;
                 rotate_checkboxes := [5; 6; 7]%nat;
                 color_checkboxes := color_checkboxes (st_globals st);
                 check_all := Some 1%nat;
                 intensity_slider := Some 0%nat |};
            st_ui := panel_ui (PyFloat.of_int 2) one_tenth
                       true true true true true true true false |}.
Proof. reflexivity. Qed.

Lemma create_window_inv st st' : create_window st = Some st' -> panel_inv st'.
Proof.
  rewrite create_window_result. intros [= <-]. split.
  - repeat split.
  - exists (PyFloat.of_int 2), one_tenth, true, true, true, true, true, true, true, false.
    repeat split.
Qed.

Lemma toggle_all_checkboxes_panel g mx v all tx ty tz rx ry rz green :
  created_globals g ->
  toggle_all_checkboxes g (panel_ui mx v all tx ty tz rx ry rz green)
  = Some (panel_ui mx v all all all all all all all green).
Proof.
  intros (_ & Hall & Ht & Hr & _). unfold toggle_all_checkboxes.
  rewrite Hall, Ht, Hr. reflexivity.
Qed.

Lemma user_sets_checkBox_inv st h b st' :
  panel_inv st -> user_sets_checkBox st h b = Some st' -> panel_inv st'.
Proof.
  intros [Hg (mx & v & all & tx & ty & tz & rx & ry & rz & green & Hui & Hlo & Hhi)].
  unfold user_sets_checkBox. rewrite Hui.
  destruct h as [|[|[|[|[|[|[|[|[|[|[|h]]]]]]]]]]]; cbn; rewrite ?lookup_nil;
    try discriminate.
  1:{ unfold run_change_command. cbn.
      change (toggle_all_checkboxes (st_globals st) ?u)
        with (toggle_all_checkboxes (st_globals st)
                (panel_ui mx v b tx ty tz rx ry rz green)).
      rewrite (toggle_all_checkboxes_panel _ _ _ _ _ _ _ _ _ _ _ Hg). cbn.
      intros [= <-]. split; [exact Hg|]. cbn. eauto 15. }
  all: intros [= <-]; split; [exact Hg|]; cbn;
    do 10 eexists; (split; [reflexivity|]); split; assumption.
Qed.

Lemma user_enters_value_inv st h x st' :
  PyFloat.is_nan x = false ->
  panel_inv st -> user_enters_value st h x = Some st' -> panel_inv st'.
Proof.
  intros Hx [Hg (mx & v & all & tx & ty & tz & rx & ry & rz & green & Hui & Hlo & Hhi)].
  unfold user_enters_value. rewrite Hui.
  destruct h as [|[|[|[|[|[|[|[|[|[|[|h]]]]]]]]]]]; cbn; rewrite ?lookup_nil;
    try discriminate.
  intros [= <-]. split; [exact Hg|]. cbn.
  do 10 eexists. split; [reflexivity|].
  apply field_clamp_range; [reflexivity|reflexivity|assumption|reflexivity].
Qed.

(** Every panel the user can bring about satisfies the invariant. *)
Lemma reachable_inv st : reachable st -> panel_inv st.
Proof.
  induction 1 as [st st' Hc|st h b st' _ IH Hs|st h x st' _ IH Hx He].
  - exact (create_window_inv _ _ Hc).
  - exact (user_sets_checkBox_inv _ _ _ _ IH Hs).
  - exact (user_enters_value_inv _ _ _ _ Hx IH He).
Qed.

Lemma panel_inv_ready st : panel_inv st -> panel_ready (st_globals st) (st_ui st) = true.
Proof.
  intros [(Hs & Hall & Ht & Hr & Hc)
          (mx & v & all & tx & ty & tz & rx & ry & rz & green & Hui & _)].
  unfold panel_ready, channel_checked, attribute_checkboxes.
  rewrite Hs, Hc, Ht, Hr, Hui. reflexivity.
Qed.

(** ** The overshoot value *)

(** C1: on a processed channel (both neighbouring keys found, at different
    times) the value computed for the channel is exactly
    [c + ((n - p) * d) * i], with [c], [p], [n] the values of the attribute
    at the current time, at the previous key and at the next key, for every
    direction [d] and intensity [i]; in particular for p = 0.0, n = 10.0,
    c = 10.0, d = +1, i = 0.5 the velocity is 10.0 and the result 15.0. *)
Theorem overshoot_value_formula (s : Scene) (direction : Z) (intensity : float)
    (obj attr : string) (previous_key next_key : float) :
  findKeyframe s obj attr previous (currentTime s) = Some previous_key ->
  findKeyframe s obj attr next (currentTime s) = Some next_key ->
  PyFloat.eqb previous_key next_key = false ->
  channel_value s direction (currentTime s) intensity obj attr
  = Some (PyFloat.add (getAttr s (plug obj attr) (currentTime s))
            (PyFloat.mul
               (PyFloat.mul
                  (PyFloat.sub (getAttr s (plug obj attr) next_key)
                     (getAttr s (plug obj attr) previous_key))
                  (PyFloat.of_int direction))
               intensity))
  /\ PyFloat.mul (PyFloat.sub (PyFloat.of_int 10) (PyFloat.of_int 0)) (PyFloat.of_int 1)
     = PyFloat.of_int 10
  /\ calculate_overshoot (PyFloat.of_int 10) (PyFloat.of_int 10) one_half
     = PyFloat.of_int 15.
Proof.
  intros Hp Hn Hne. unfold channel_value. rewrite Hp, Hn, Hne. cbn [negb].
  repeat split.
Qed.

Lemma overshoot_value_formula_witness :
  channel_value moving_scene 1 (currentTime moving_scene) one_half
    "pCube1" "translateX"
  = Some (PyFloat.of_int 15).
Proof.
  exact (proj1 (overshoot_value_formula moving_scene 1 one_half
                  "pCube1" "translateX" (PyFloat.of_int 1) (PyFloat.of_int 3)
                  eq_refl eq_refl eq_refl)).
Defined.

(** C9, as stated, fails: with an infinite velocity the product with 0.0 is
    NaN, and so is the result. *)
Lemma zero_intensity_counterexample :
  calculate_overshoot (PyFloat.of_int 1) PyFloat.infinity PyFloat.zero = PyFloat.nan
  /\ calculate_overshoot (PyFloat.of_int 1) PyFloat.infinity PyFloat.zero
     <> PyFloat.of_int 1
  /\ PyFloat.eqb (calculate_overshoot (PyFloat.of_int 1) PyFloat.infinity PyFloat.zero)
       (PyFloat.of_int 1) = false.
Proof. split; [reflexivity|]. split; [discriminate|reflexivity]. Qed.

(** C9, amended: for every value [v] that is a number and every finite
    velocity [w], the computation with intensity zero gives a result that
    compares equal to [v], and [v] itself unless [v] is a zero. *)
Theorem zero_intensity_identity (v w i : float) :
  PyFloat.is_nan v = false -> PyFloat.is_finite w = true ->
  PyFloat.is_zero i = true ->
  PyFloat.eqb (calculate_overshoot v w i) v = true
  /\ (PyFloat.is_zero v = false -> calculate_overshoot v w i = v).
Proof.
  intros Hv Hw Hi. unfold calculate_overshoot.
  apply add_zero_r; [assumption|]. apply mul_finite_zero; assumption.
Qed.

Lemma zero_intensity_identity_witness :
  PyFloat.eqb (calculate_overshoot (PyFloat.of_int 5) (PyFloat.of_int 10) PyFloat.zero)
    (PyFloat.of_int 5) = true
  /\ (PyFloat.is_zero (PyFloat.of_int 5) = false ->
      calculate_overshoot (PyFloat.of_int 5) (PyFloat.of_int 10) PyFloat.zero
      = PyFloat.of_int 5).
Proof.
  exact (zero_intensity_identity (PyFloat.of_int 5) (PyFloat.of_int 10) PyFloat.zero
           eq_refl eq_refl eq_refl).
Defined.

(** C10, as stated, fails: for c = 1.0, p = 0.0, n = 2^53 and i = 1.0 the
    result of the positive direction is 2^53 (the sum 2^53 + 1 is rounded),
    that of the negative direction is -(2^53 - 1), and they add up to 1.0,
    not to 2.0. *)
Lemma mirror_sum_counterexample :
  channel_value large_scene 1 (currentTime large_scene) (PyFloat.of_int 1)
    "pCube1" "translateX" = Some (PyFloat.of_dyadic 1 53)
  /\ channel_value large_scene (-1) (currentTime large_scene) (PyFloat.of_int 1)
       "pCube1" "translateX" = Some (PyFloat.of_int (- (2 ^ 53 - 1)))
  /\ PyFloat.add (PyFloat.of_dyadic 1 53) (PyFloat.of_int (- (2 ^ 53 - 1)))
     = PyFloat.of_int 1
  /\ PyFloat.mul (PyFloat.of_int 2) (PyFloat.of_int 1) = PyFloat.of_int 2
  /\ PyFloat.eqb (PyFloat.of_int 1) (PyFloat.of_int 2) = false
  /\ PyFloat.valid (PyFloat.of_dyadic 1 53) = true.
Proof. repeat split; vm_compute; reflexivity. Qed.

(** C10, amended: on a processed channel, negating the direction exactly
    negates the velocity term: with [t = ((n - p) * 1) * i], the result of
    the positive direction is [c + t] and that of the negative direction is
    [c + (-t)]. *)
Theorem direction_negates_velocity_term (s : Scene) (intensity : float)
    (obj attr : string) (previous_key next_key : float) :
  findKeyframe s obj attr previous (currentTime s) = Some previous_key ->
  findKeyframe s obj attr next (currentTime s) = Some next_key ->
  PyFloat.eqb previous_key next_key = false ->
  let c := getAttr s (plug obj attr) (currentTime s) in
  let t := PyFloat.mul
             (PyFloat.mul
                (PyFloat.sub (getAttr s (plug obj attr) next_key)
                   (getAttr s (plug obj attr) previous_key))
                (PyFloat.of_int 1))
             intensity in
  channel_value s 1 (currentTime s) intensity obj attr = Some (PyFloat.add c t)
  /\ channel_value s (-1) (currentTime s) intensity obj attr
     = Some (PyFloat.add c (PyFloat.opp t)).
Proof.
  intros Hp Hn Hne c t. unfold channel_value. rewrite Hp, Hn, Hne. cbn [negb].
  split; [reflexivity|]. unfold calculate_overshoot.
  rewrite of_int_minus_one, mul_opp_r, mul_opp_l. reflexivity.
Qed.

Lemma direction_negates_velocity_term_witness :
  channel_value moving_scene 1 (currentTime moving_scene) one_half
    "pCube1" "translateX" = Some (PyFloat.of_int 15)
  /\ channel_value moving_scene (-1) (currentTime moving_scene) one_half
       "pCube1" "translateX" = Some (PyFloat.of_int 5).
Proof.
  exact (direction_negates_velocity_term moving_scene one_half
           "pCube1" "translateX" (PyFloat.of_int 1) (PyFloat.of_int 3)
           eq_refl eq_refl eq_refl).
Defined.

(** ** Skipped and written channels *)










Lemma write_attrs_split cur obj obj_data attr v :
  (attr, v) ∈ obj_data ->
  exists pre post,
    write_attrs cur obj obj_data
    = pre ++ SetAttr (plug obj attr) v :: SetKeyframe obj attr cur v :: post.
Proof.
  intros Hin. apply list_elem_of_split in Hin as (l1 & l2 & ->).
  unfold write_attrs. rewrite flat_map_app. cbn. eauto.
Qed.

(** C4: for every object and channel that pass the conditions of lines
    46-65 (object selected, attribute keyable, one of the six, its check box
    set, both neighbouring keys found at different times), the call sets the
    attribute to the computed value and, right after, inserts a keyframe of
    that value at the current time. *)
Theorem processed_channel_written (g : Globals) (ui : UI) (s : Scene) (direction : Z)
    (obj attr : string) (attrs : list string) (previous_key next_key : float) :
  panel_ready g ui = true ->
  obj ∈ ls_selection s ->
  listAttr s obj = Some attrs ->
  attr ∈ attrs ->
  attr ∈ channels ->
  channel_checked g ui attr = Some true ->
  findKeyframe s obj attr previous (currentTime s) = Some previous_key ->
  findKeyframe s obj attr next (currentTime s) = Some next_key ->
  PyFloat.eqb previous_key next_key = false ->
  exists h intensity tr pre post,
    intensity_slider g = Some h
    /\ floatSliderGrp_query ui h = Some intensity
    /\ apply_overshoot g ui s direction = Some tr
    /\ let value :=
         calculate_overshoot (getAttr s (plug obj attr) (currentTime s))
           (PyFloat.mul
              (PyFloat.sub (getAttr s (plug obj attr) next_key)
                 (getAttr s (plug obj attr) previous_key))
              (PyFloat.of_int direction))
           intensity in
       tr = pre ++ SetAttr (plug obj attr) value
                 :: SetKeyframe obj attr (currentTime s) value :: post.
Proof.
  intros Hready Hsel Hattrs Hin Hch Hck Hp Hn Hne.
  destruct (apply_overshoot_closed g ui s direction Hready) as (r & Hr & Htr).
  destruct (request_fields _ _ _ _ Hr) as (h & cb & Hh & Hi & _ & _ & Hd & _).
  exists h, (req_intensity r), (run_request s r).
  set (value := calculate_overshoot _ _ _).
  assert (Hproc : processed g ui s direction obj attr value).
  { unfold processed. repeat split; eauto.
    exists h, (req_intensity r). repeat split; try assumption.
    unfold channel_value. now rewrite Hp, Hn, Hne. }
  apply (objects_data_spec g ui s direction r obj attr value Hr) in Hproc
    as (obj_data & Hobj & Hentry).
  apply list_elem_of_split in Hobj as (d1 & d2 & Hobj).
  destruct (write_attrs_split (currentTime s) obj obj_data attr value Hentry)
    as (w1 & w2 & Hw).
  eexists (Select (ls_selection s)
             :: flat_map (object_cmds (currentTime s) (req_color r)) d1
             ++ Select [obj] :: w1), _.
  split; [assumption|]. split; [assumption|]. split; [assumption|].
  unfold run_request. rewrite Hobj, flat_map_app. cbn [flat_map].
  unfold object_cmds at 2. cbn [fst snd]. rewrite Hw.
  cbn. rewrite <- !app_assoc. cbn. rewrite <- !app_assoc. reflexivity.
Qed.

Lemma processed_channel_written_witness :
  exists h intensity tr pre post,
    intensity_slider (st_globals half_panel) = Some h
    /\ floatSliderGrp_query (st_ui half_panel) h = Some intensity
    /\ apply_overshoot (st_globals half_panel) (st_ui half_panel) moving_scene 1
       = Some tr
    /\ tr = pre ++ SetAttr "pCube1.translateX" (PyFloat.of_int 15)
                 :: SetKeyframe "pCube1" "translateX" (PyFloat.of_int 2)
                      (PyFloat.of_int 15) :: post.
Proof.
  destruct (processed_channel_written (st_globals half_panel) (st_ui half_panel)
              moving_scene 1 "pCube1" "translateX" ["translateX"%string]
              (PyFloat.of_int 1) (PyFloat.of_int 3))
    as (h & intensity & tr & pre & post & Hh & Hi & Htr & Hsplit).
  - reflexivity.
  - apply list_elem_of_here.
  - reflexivity.
  - apply list_elem_of_here.
  - apply list_elem_of_here.
  - reflexivity.
  - reflexivity.
  - reflexivity.
  - reflexivity.
  - exists h, intensity, tr, pre, post.
    split; [assumption|]. split; [assumption|]. split; [assumption|].
    vm_compute in Hh. injection Hh as <-.
    vm_compute in Hi. injection Hi as <-.
    exact Hsplit.
Defined.

(** C5, as stated, fails: with "Translate Y" cleared the loop passes over
    [translateY] of [pCube1], but with the colour flag set the call runs the
    Set Key script of lines 86-91 while [pCube1] is selected, because its
    channel [translateX] is processed. *)
Lemma unchecked_channel_counterexample :
  channel_checked (st_globals green_without_y_panel) (st_ui green_without_y_panel)
    "translateY" = Some false
  /\ listAttr (two_channel_scene keys_1_3) "pCube1"
     = Some ["translateX"; "translateY"]%string
  /\ apply_overshoot (st_globals green_without_y_panel)
       (st_ui green_without_y_panel) (two_channel_scene keys_1_3) 1
     = Some [Select ["pCube1"%string];
             Select ["pCube1"%string];
             SetAttr "pCube1.translateX" (PyFloat.of_int 11);
             SetKeyframe "pCube1" "translateX" (PyFloat.of_int 2) (PyFloat.of_int 11);
             MelEval mel_script;
             Select ["pCube1"%string];
             Refresh]
  /\ ~ untouched ["pCube1"%string] "pCube1" "translateY"
        [Select ["pCube1"%string];
         Select ["pCube1"%string];
         SetAttr "pCube1.translateX" (PyFloat.of_int 11);
         SetKeyframe "pCube1" "translateX" (PyFloat.of_int 2) (PyFloat.of_int 11);
         MelEval mel_script;
         Select ["pCube1"%string];
         Refresh].
Proof.
  split; [reflexivity|]. split; [reflexivity|].
  split; [vm_compute; reflexivity|].
  intros Hun. apply (Hun (["pCube1"%string], MelEval mel_script)).
  - cbn. do 4 apply list_elem_of_further. apply list_elem_of_here.
  - cbn. apply list_elem_of_here.
Qed.

(** C5, amended: every attribute write and every keyframe insertion command
    of the call is for a selected object and a channel of the six that is
    checked in the panel and listed among the keyable attributes of the
    object; a channel of the six whose check box is not set, or whose object
    has no keyable translate/rotate attribute or does not list it, gets no
    such command, and nothing the call sends may change it when the colour
    flag is off or no channel of its object is processed (as for an object
    without keyable translate/rotate attributes); no keyframe insertion
    command is for an attribute outside the six.  The Set Key script of lines
    86-91 is sent only with the colour flag set, and then with one object
    that has a processed channel as the whole selection. *)
Theorem only_checked_keyable_channels_written (g : Globals) (ui : UI) (s : Scene)
    (direction : Z) :
  panel_ready g ui = true ->
  exists tr,
    apply_overshoot g ui s direction = Some tr
    /\ (forall c, c ∈ tr -> is_write c = true ->
        exists obj attr attrs v,
          (c = SetAttr (plug obj attr) v
           \/ c = SetKeyframe obj attr (currentTime s) v)
          /\ obj ∈ ls_selection s
          /\ listAttr s obj = Some attrs
          /\ attr ∈ attrs
          /\ attr ∈ channels
          /\ channel_checked g ui attr = Some true)
    /\ (forall obj attr,
        attr ∈ channels ->
        channel_checked g ui attr <> Some true
        \/ listAttr s obj = None
        \/ (exists attrs, listAttr s obj = Some attrs /\ attr ∉ attrs) ->
        not_written obj attr tr
        /\ (color_flag g ui = Some false
            \/ (forall attr' v, ~ processed g ui s direction obj attr' v) ->
            untouched (ls_selection s) obj attr tr))
    /\ (forall obj attr,
        attr ∈ channels -> listAttr s obj = None ->
        untouched (ls_selection s) obj attr tr)
    /\ (forall obj attr t v, attr ∉ channels -> SetKeyframe obj attr t v ∉ tr)
    /\ (forall sel script,
        (sel, MelEval script) ∈ selection_trace (ls_selection s) tr ->
        color_flag g ui = Some true
        /\ exists obj attr v,
            sel = [obj] /\ processed g ui s direction obj attr v).
Proof.
  intros Hready.
  destruct (apply_overshoot_closed g ui s direction Hready) as (r & Hr & Htr).
  exists (run_request s r). split; [assumption|].
  assert (Honly : forall c, c ∈ run_request s r -> is_write c = true ->
            exists obj attr attrs v,
              (c = SetAttr (plug obj attr) v
               \/ c = SetKeyframe obj attr (currentTime s) v)
              /\ obj ∈ ls_selection s
              /\ listAttr s obj = Some attrs
              /\ attr ∈ attrs
              /\ attr ∈ channels
              /\ channel_checked g ui attr = Some true).
  { intros c Hin Hw.
    apply (writes_of_request g ui s direction r c Hr Hw) in Hin
      as (obj & attr & v & (Hsel & (attrs & Hattrs & Hattr) & Hch & Hck & _) & Hc).
    exists obj, attr, attrs, v. auto 10. }
  assert (Hskip : forall obj attr,
            channel_checked g ui attr <> Some true
            \/ listAttr s obj = None
            \/ (exists attrs, listAttr s obj = Some attrs /\ attr ∉ attrs) ->
            forall v, ~ processed g ui s direction obj attr v).
  { intros obj attr Hskip v (_ & (attrs & Hattrs & Hattr) & _ & Hck & _).
    destruct Hskip as [Hno|[Hno|(attrs' & Hattrs' & Hno)]].
    - contradiction.
    - congruence.
    - assert (attrs' = attrs) as -> by congruence. contradiction. }
  split; [exact Honly|]. split; [|split; [|split]].
  - intros obj attr Hch Hcase. split.
    + apply (unprocessed_not_written g ui s direction r obj attr Hr Hch).
      apply Hskip, Hcase.
    + intros Hquiet.
      apply (unprocessed_untouched g ui s direction r _ obj attr Hr Hch).
      * apply Hskip, Hcase.
      * destruct Hquiet as [Hoff|Hnone]; [left|right; assumption].
        rewrite (color_flag_request _ _ _ _ Hr) in Hoff. congruence.
  - intros obj attr Hch Hnone.
    apply (unprocessed_untouched g ui s direction r _ obj attr Hr Hch).
    + apply Hskip. auto.
    + right. intros attr' v (_ & (attrs & Hattrs & _) & _). congruence.
  - intros obj attr t v Hnot Hin.
    destruct (Honly _ Hin eq_refl)
      as (obj' & attr' & _ & v' & [Hc|Hc] & _ & _ & _ & Hch & _);
      [discriminate Hc|].
    injection Hc as -> -> _ _. contradiction.
  - intros sel script Hin.
    apply (mel_in_run_request g ui s direction r _ _ _ Hr) in Hin as [Hcol Hobj].
    split; [|exact Hobj]. rewrite (color_flag_request _ _ _ _ Hr). now rewrite Hcol.
Qed.

Lemma only_checked_keyable_channels_written_witness :
  exists tr,
    apply_overshoot (st_globals half_panel) (st_ui half_panel) moving_scene 1 = Some tr
    /\ not_written "pCube1" "rotateX" tr
    /\ untouched ["pCube1"%string] "pCube1" "rotateX" tr.
Proof.
  destruct (only_checked_keyable_channels_written (st_globals half_panel)
              (st_ui half_panel) moving_scene 1 eq_refl)
    as (tr & Htr & _ & Hskip & _).
  exists tr. split; [assumption|].
  destruct (Hskip "pCube1"%string "rotateX"%string) as [Hnw Hun].
  - apply list_elem_of_further, list_elem_of_further, list_elem_of_further,
      list_elem_of_here.
  - right. right. exists ["translateX"%string]. split; [reflexivity|].
    intros Hin. apply list_elem_of_singleton in Hin. discriminate Hin.
  - split; [exact Hnw|]. apply Hun. left. reflexivity.
Defined.

(** ** The selection *)

(** C7: when the call returns, the active selection is the one the call
    found: the selections of single objects made in the write loop are undone
    by the selection of line 93. *)
Theorem selection_restored (g : Globals) (ui : UI) (s : Scene) (direction : Z) :
  panel_ready g ui = true ->
  exists tr,
    apply_overshoot g ui s direction = Some tr
    /\ selection_after (ls_selection s) tr = ls_selection s.
Proof.
  intros Hready.
  destruct (apply_overshoot_closed g ui s direction Hready) as (r & Hr & Htr).
  exists (run_request s r). split; [assumption|].
  unfold selection_after, run_request. cbn [foldl]. rewrite foldl_app. reflexivity.
Qed.

Lemma selection_restored_witness :
  exists tr,
    apply_overshoot (st_globals half_panel) (st_ui half_panel) moving_scene 1 = Some tr
    /\ selection_after ["pCube1"%string] tr = ["pCube1"%string].
Proof.
  exact (selection_restored (st_globals half_panel) (st_ui half_panel)
           moving_scene 1 eq_refl).
Defined.

(** ** The panel *)

(** C6: when the user sets the "Check All" box to [b], its change command
    sets the three translate and the three rotate check boxes to [b]: all six
    become true for [b = true] and false for [b = false]. *)
Theorem check_all_sets_six (st : State) (b : bool) :
  reachable st ->
  exists h tx ty tz rx ry rz st',
    check_all (st_globals st) = Some h
    /\ translate_checkboxes (st_globals st) = [tx; ty; tz]
    /\ rotate_checkboxes (st_globals st) = [rx; ry; rz]
    /\ NoDup [tx; ty; tz; rx; ry; rz]
    /\ user_sets_checkBox st h b = Some st'
    /\ st_globals st' = st_globals st
    /\ checkBox_query (st_ui st') h = Some b
    /\ forall cb, cb ∈ [tx; ty; tz; rx; ry; rz] ->
                  checkBox_query (st_ui st') cb = Some b.
Proof.
  intros Hreach. apply reachable_inv in Hreach
    as [Hg (mx & v & all & tx & ty & tz & rx & ry & rz & green & Hui & _)].
  pose proof Hg as (_ & Hall & Ht & Hr & _).
  exists 1%nat, 2%nat, 3%nat, 4%nat, 5%nat, 6%nat, 7%nat.
  exists {| st_globals := st_globals st;
            st_ui := panel_ui mx v b b b b b b b green |}.
  split; [assumption|]. split; [assumption|]. split; [assumption|].
  split; [apply NoDup_ListNoDup; repeat constructor; cbn; lia|].
  split.
  - unfold user_sets_checkBox. rewrite Hui. cbn. unfold run_change_command. cbn.
    change (toggle_all_checkboxes (st_globals st) ?u)
      with (toggle_all_checkboxes (st_globals st)
              (panel_ui mx v b tx ty tz rx ry rz green)).
    now rewrite (toggle_all_checkboxes_panel _ _ _ _ _ _ _ _ _ _ _ Hg).
  - split; [reflexivity|]. split; [reflexivity|].
    intros cb Hcb. cbn.
    repeat (apply elem_of_cons in Hcb as [->|Hcb]; [reflexivity|]).
    inversion Hcb.
Qed.

Lemma check_all_sets_six_witness :
  exists st',
    user_sets_checkBox fresh_panel 1%nat false = Some st'
    /\ forall cb, cb ∈ [2; 3; 4; 5; 6; 7]%nat ->
                  checkBox_query (st_ui st') cb = Some false.
Proof.
  destruct (check_all_sets_six fresh_panel false
              (reach_create initial_state fresh_panel eq_refl))
    as (h & tx & ty & tz & rx & ry & rz & st' & Hh & Ht & Hr & _ & Hs & _ & _ & Hsix).
  vm_compute in Hh, Ht, Hr.
  injection Hh as <-. injection Ht as <- <- <-. injection Hr as <- <- <-.
  exists st'. split; assumption.
Defined.

(** C8: in every panel the user can bring about, each of the two buttons
    builds a request, and every request built on a button press has the
    value of the intensity slider as intensity, between 0 and 20, and
    direction +1 or -1; the commands of the press are those of the request. *)
Theorem request_intensity_in_range (st : State) :
  reachable st ->
  (exists hp hn rp rn,
      request_of_press st hp = Some rp /\ req_direction rp = 1
      /\ request_of_press st hn = Some rn /\ req_direction rn = -1)
  /\ forall h r,
      request_of_press st h = Some r ->
      PyFloat.leb (PyFloat.of_int 0) (req_intensity r) = true
      /\ PyFloat.leb (req_intensity r) (PyFloat.of_int 20) = true
      /\ (req_direction r = 1 \/ req_direction r = -1)
      /\ (exists hs, intensity_slider (st_globals st) = Some hs
                     /\ floatSliderGrp_query (st_ui st) hs = Some (req_intensity r))
      /\ forall s, user_presses st s h = Some (run_request s r).
Proof.
  intros Hreach. pose proof (reachable_inv _ Hreach) as Hinv.
  pose proof (panel_inv_ready _ Hinv) as Hready.
  destruct Hinv
    as [Hg (mx & v & all & tx & ty & tz & rx & ry & rz & green & Hui & Hlo & Hhi)].
  pose proof Hg as (Hs & _).
  assert (Hv : floatSliderGrp_query (st_ui st) 0%nat = Some v)
    by (rewrite Hui; reflexivity).
  assert (Hrange : forall d r,
             request (st_globals st) (st_ui st) d = Some r ->
             req_intensity r = v /\ req_direction r = d).
  { intros d r Hr.
    destruct (request_fields _ _ _ _ Hr) as (h & _ & Hh & Hi & _ & _ & Hd & _).
    split; [|assumption]. congruence. }
  split.
  - destruct (apply_overshoot_closed _ _ moving_scene 1 Hready) as (rp & Hrp & _).
    destruct (apply_overshoot_closed _ _ moving_scene (-1) Hready) as (rn & Hrn & _).
    exists 8%nat, 9%nat, rp, rn. unfold request_of_press. rewrite Hui. cbn.
    rewrite <- Hui.
    split; [assumption|]. split; [apply (Hrange _ _ Hrp)|].
    split; [assumption|]. apply (Hrange _ _ Hrn).
  - intros h r. unfold request_of_press, user_presses,
      overshoot_positive, overshoot_negative.
    destruct (st_ui st !! h) as [[| |l [| |]]|]; try discriminate; intros Hr;
      destruct (Hrange _ _ Hr) as [Hi Hd]; rewrite Hi, Hd;
      (split; [assumption|]); (split; [assumption|]);
      (split; [auto|]); (split; [eauto|]); intros s.
    + destruct (apply_overshoot_closed _ _ s 1 Hready) as (r' & Hr' & ->).
      congruence.
    + destruct (apply_overshoot_closed _ _ s (-1) Hready) as (r' & Hr' & ->).
      congruence.
Qed.

Lemma request_intensity_in_range_witness :
  exists rp rn,
    request_of_press half_panel 8%nat = Some rp
    /\ request_of_press half_panel 9%nat = Some rn
    /\ req_intensity rp = one_half /\ req_direction rp = 1
    /\ req_intensity rn = one_half /\ req_direction rn = -1
    /\ PyFloat.leb (PyFloat.of_int 0) (req_intensity rp) = true
    /\ PyFloat.leb (req_intensity rp) (PyFloat.of_int 20) = true.
Proof.
  destruct (request_intensity_in_range half_panel
              (reach_value fresh_panel 0%nat one_half half_panel
                 (reach_create initial_state fresh_panel eq_refl) eq_refl eq_refl))
    as [_ Hall].
  eexists _, _. split; [reflexivity|]. split; [reflexivity|].
  split; [reflexivity|]. split; [reflexivity|].
  split; [reflexivity|]. split; [reflexivity|].
  destruct (Hall 8%nat _ eq_refl) as (Hlo & Hhi & _). split; assumption.
Defined.

(** ** Further properties of the applier *)

Lemma attribute_checkboxes_short (g : Globals) :
  (length (translate_checkboxes g) < 3 \/ length (rotate_checkboxes g) < 3)%nat ->
  attribute_checkboxes g = None.
Proof.
  unfold attribute_checkboxes.
  destruct (translate_checkboxes g) as [|t0 [|t1 [|t2 ts]]];
    destruct (rotate_checkboxes g) as [|r0 [|r1 [|r2 rs]]]; cbn;
    intros [H|H]; try reflexivity; lia.
Qed.

(** X1: with a slider that can be queried and fewer than three translate
    handles or fewer than three rotate handles in the globals, the dictionary
    of lines 34-41 cannot be built (an index is out of range) and the call
    raises there, whatever the scene. *)
Theorem apply_overshoot_needs_three_handles (g : Globals) (ui : UI) (s : Scene)
    (direction : Z) (h : handle) (intensity : float) :
  intensity_slider g = Some h ->
  floatSliderGrp_query ui h = Some intensity ->
  (length (translate_checkboxes g) < 3 \/ length (rotate_checkboxes g) < 3)%nat ->
  attribute_checkboxes g = None
  /\ apply_overshoot g ui s direction = None.
Proof.
  intros Hh Hi Hshort. pose proof (attribute_checkboxes_short g Hshort) as Hnone.
  split; [exact Hnone|].
  unfold apply_overshoot. rewrite Hh. cbn. rewrite Hi. cbn. now rewrite Hnone.
Qed.

Lemma apply_overshoot_needs_three_handles_witness :
  attribute_checkboxes
    {| slider := None; color_checkbox := Some 10%nat;
       translate_checkboxes := [2; 3]%nat; rotate_checkboxes := [5; 6; 7]%nat;
       color_checkboxes := []; check_all := Some 1%nat;
       intensity_slider := Some 0%nat |} = None
  /\ apply_overshoot
       {| slider := None; color_checkbox := Some 10%nat;
          translate_checkboxes := [2; 3]%nat; rotate_checkboxes := [5; 6; 7]%nat;
          color_checkboxes := []; check_all := Some 1%nat;
          intensity_slider := Some 0%nat |}
       (st_ui fresh_panel) moving_scene 1 = None.
Proof.
  apply (apply_overshoot_needs_three_handles _ (st_ui fresh_panel) moving_scene 1
           0%nat one_tenth).
  - reflexivity.
  - reflexivity.
  - left. cbn. lia.
Defined.

(** X2: with nothing selected the call sends the (empty) selection twice and
    the refresh, and nothing else; it needs the intensity slider and three
    handles in each list, but consults no check box, not even that of the
    colour flag. *)
Theorem empty_selection_trace (g : Globals) (ui : UI) (s : Scene) (direction : Z)
    (h : handle) (intensity : float) :
  intensity_slider g = Some h ->
  floatSliderGrp_query ui h = Some intensity ->
  (3 <= length (translate_checkboxes g))%nat ->
  (3 <= length (rotate_checkboxes g))%nat ->
  ls_selection s = [] ->
  apply_overshoot g ui s direction = Some [Select []; Select []; Refresh].
Proof.
  intros Hh Hi Ht Hr Hsel. unfold apply_overshoot, attribute_checkboxes.
  rewrite Hh. cbn. rewrite Hi. cbn.
  destruct (translate_checkboxes g) as [|t0 [|t1 [|t2 ts]]]; cbn in Ht; try lia.
  destruct (rotate_checkboxes g) as [|r0 [|r1 [|r2 rs]]]; cbn in Hr; try lia.
  cbn. rewrite Hsel. reflexivity.
Qed.

Lemma empty_selection_trace_witness :
  apply_overshoot
    {| slider := None; color_checkbox := None;
       translate_checkboxes := [2; 3; 4]%nat; rotate_checkboxes := [5; 6; 7]%nat;
       color_checkboxes := []; check_all := None; intensity_slider := Some 0%nat |}
    (st_ui fresh_panel)
    {| currentTime := PyFloat.of_int 2; ls_selection := [];
       listAttr := fun _ => None; findKeyframe := fun _ _ _ _ => None;
       getAttr := fun _ _ => PyFloat.zero |}
    1
  = Some [Select []; Select []; Refresh].
Proof.
  apply (empty_selection_trace _ (st_ui fresh_panel) _ 1 0%nat one_tenth);
    cbn; try reflexivity; lia.
Defined.

Lemma dict_collect_none {V : Type} (f : string -> option V) xs : forall d0,
  (forall x, x ∈ xs -> f x = None) -> dict_collect f xs d0 = d0.
Proof.
  induction xs as [|x xs IH]; intros d0 Hnone; [reflexivity|].
  rewrite dict_collect_cons, (Hnone x) by apply list_elem_of_here.
  apply IH. intros y Hy. apply Hnone, list_elem_of_further, Hy.
Qed.

(** X3: with a ready panel, the call sends only the selection, the selection
    again and the refresh exactly when no channel is processed (no box set,
    no keyable channel, no pair of distinct neighbouring keys, ...). *)
Theorem nothing_processed_trace (g : Globals) (ui : UI) (s : Scene) (direction : Z) :
  panel_ready g ui = true ->
  (forall obj attr v, ~ processed g ui s direction obj attr v)
  <-> apply_overshoot g ui s direction
      = Some [Select (ls_selection s); Select (ls_selection s); Refresh].
Proof.
  intros Hready.
  destruct (apply_overshoot_closed g ui s direction Hready) as (r & Hr & Htr).
  rewrite Htr. unfold run_request.
  destruct (dict_collect (object_entry s r) (ls_selection s) [])
    as [|[obj obj_data] d] eqn:Hd.
  - split; [reflexivity|]. intros _ obj attr v Hp.
    apply (objects_data_spec g ui s direction r obj attr v Hr) in Hp
      as (od & Hin & _).
    rewrite Hd in Hin. inversion Hin.
  - assert (Hin : (obj, obj_data) ∈
              dict_collect (object_entry s r) (ls_selection s) [])
      by (rewrite Hd; apply list_elem_of_here).
    pose proof Hin as Hin'. apply dict_collect_nil_spec in Hin' as [_ He].
    apply object_entry_not_nil in He as (attr & v & Hav). split.
    + intros Hno. exfalso. apply (Hno obj attr v).
      apply (objects_data_spec g ui s direction r obj attr v Hr). eauto.
    + destruct obj_data as [|[attr' v'] obj_data]; [inversion Hav|].
      cbn. intros Habs. discriminate Habs.
Qed.

Lemma nothing_processed_trace_witness :
  apply_overshoot (st_globals cleared_panel) (st_ui cleared_panel) moving_scene 1
  = Some [Select ["pCube1"%string]; Select ["pCube1"%string]; Refresh].
Proof.
  apply (nothing_processed_trace (st_globals cleared_panel) (st_ui cleared_panel)
           moving_scene 1 eq_refl).
  intros obj attr v (_ & _ & Hch & Hck & _).
  unfold channels in Hch.
  repeat (apply elem_of_cons in Hch as [->|Hch]; [discriminate Hck|]).
  inversion Hch.
Defined.

(** ** Further properties of the panel *)

Lemma checkBox_query_lookup (ui ui' : UI) (h : handle) (v : bool) :
  ui' !! h = with_value v <$> ui !! h ->
  checkBox_query ui' h = (fun _ => v) <$> checkBox_query ui h.
Proof.
  unfold checkBox_query. intros ->.
  destruct (ui !! h) as [[l b c| |]|]; reflexivity.
Qed.

Lemma checkBox_query_ext (ui ui' : UI) (h : handle) :
  ui' !! h = ui !! h -> checkBox_query ui' h = checkBox_query ui h.
Proof. unfold checkBox_query. now intros ->. Qed.

Lemma with_value_idemp (v : bool) (w : Widget) :
  with_value v (with_value v w) = with_value v w.
Proof. destruct w; reflexivity. Qed.

Lemma checkBox_edit_spec (ui ui' : UI) (h : handle) (v : bool) :
  checkBox_edit ui h v = Some ui' ->
  length ui' = length ui
  /\ forall h', ui' !! h' = if decide (h' = h) then with_value v <$> ui !! h'
                              else ui !! h'.
Proof.
  unfold checkBox_edit. destruct (ui !! h) as [[l b c| |]|] eqn:Hh; try discriminate.
  intros [= <-]. split; [apply length_insert|]. intros h'.
  destruct (decide (h' = h)) as [->|Hne].
  - rewrite Hh. cbn. apply list_lookup_insert_eq. eapply lookup_lt_Some, Hh.
  - apply list_lookup_insert_ne. congruence.
Qed.

Lemma checkBox_edit_None (ui : UI) (h : handle) (v : bool) :
  checkBox_edit ui h v = None <-> checkBox_query ui h = None.
Proof.
  unfold checkBox_edit, checkBox_query.
  destruct (ui !! h) as [[l b c| |]|]; split; congruence.
Qed.

(** The loop of lines 105-106, when it does not raise. *)
Lemma edit_checkBoxes_spec (v : bool) (hs : list handle) : forall ui ui',
  edit_checkBoxes ui hs v = Some ui' ->
  length ui' = length ui
  /\ forall h, ui' !! h = if decide (h ∈ hs) then with_value v <$> ui !! h
                           else ui !! h.
Proof.
  induction hs as [|h0 hs IH]; intros ui ui'; cbn [edit_checkBoxes].
  - intros [= <-]. split; [reflexivity|]. intros h.
    destruct (decide (h ∈ [])) as [Hin|_]; [inversion Hin|reflexivity].
  - destruct (checkBox_edit ui h0 v) as [ui1|] eqn:H1; [cbn|discriminate].
    intros Hrest. apply checkBox_edit_spec in H1 as [Hlen1 Hlook1].
    apply IH in Hrest as [Hlen Hlook]. split; [congruence|]. intros h.
    rewrite Hlook, Hlook1.
    repeat case_decide; try reflexivity;
      try (exfalso;
           match goal with
           | H : _ ∉ _ :: _ |- _ => apply H; apply elem_of_cons; auto
           | H : _ ∈ _ :: _ |- _ => apply elem_of_cons in H as [?|?]; contradiction
           end).
    unfold handle, UI in *.
    destruct (ui !! h) as [w|]; cbn; [|reflexivity]. now rewrite with_value_idemp.
Qed.

(** The loop raises exactly when one of the handles is not a check box. *)
Lemma edit_checkBoxes_None (v : bool) (hs : list handle) : forall ui,
  edit_checkBoxes ui hs v = None
  <-> exists h, h ∈ hs /\ checkBox_query ui h = None.
Proof.
  induction hs as [|h0 hs IH]; intros ui; cbn [edit_checkBoxes].
  - split; [discriminate|]. intros (h & Hin & _). inversion Hin.
  - destruct (checkBox_edit ui h0 v) as [ui1|] eqn:H1; cbn.
    + pose proof (checkBox_edit_spec _ _ _ _ H1) as [_ Hlook1].
      assert (Hsame : forall h, checkBox_query ui1 h = None
                                <-> checkBox_query ui h = None).
      { intros h. unfold checkBox_query. rewrite Hlook1.
        destruct (decide (h = h0)); [|reflexivity].
        destruct (ui !! h) as [[l b c| |]|]; cbn; split; congruence. }
      rewrite IH. split.
      * intros (h & Hin & Hq). exists h. split; [apply list_elem_of_further, Hin|].
        apply Hsame, Hq.
      * intros (h & Hin & Hq). apply elem_of_cons in Hin as [->|Hin].
        -- apply checkBox_edit_None with (v := v) in Hq. congruence.
        -- exists h. split; [assumption|]. apply Hsame, Hq.
    + split; [|reflexivity]. intros _. exists h0.
      split; [apply list_elem_of_here|]. apply (checkBox_edit_None ui h0 v), H1.
Qed.

Lemma toggle_all_checkboxes_spec (g : Globals) (ui ui' : UI) :
  toggle_all_checkboxes g ui = Some ui' ->
  exists hc all_value,
    check_all g = Some hc
    /\ checkBox_query ui hc = Some all_value
    /\ length ui' = length ui
    /\ forall h,
        ui' !! h = if decide (h ∈ translate_checkboxes g ++ rotate_checkboxes g)
                   then with_value all_value <$> ui !! h
                   else ui !! h.
Proof.
  unfold toggle_all_checkboxes.
  destruct (check_all g) as [hc|]; [cbn|discriminate].
  destruct (checkBox_query ui hc) as [all_value|] eqn:Hq; [cbn|discriminate].
  intros He. apply edit_checkBoxes_spec in He as [Hlen Hlook].
  exists hc, all_value. auto.
Qed.

(** X4: when [toggle_all_checkboxes] returns, every check box listed in
    [translate_checkboxes] and [rotate_checkboxes] holds the value of "Check
    All" and keeps its label and command, every other control is as before,
    and no control is added or removed. *)
Theorem toggle_all_checkboxes_effect (g : Globals) (ui ui' : UI) :
  toggle_all_checkboxes g ui = Some ui' ->
  exists hc all_value,
    check_all g = Some hc
    /\ checkBox_query ui hc = Some all_value
    /\ length ui' = length ui
    /\ (forall h, h ∈ translate_checkboxes g ++ rotate_checkboxes g ->
          checkBox_query ui' h = Some all_value
          /\ ui' !! h = with_value all_value <$> ui !! h)
    /\ (forall h, h ∉ translate_checkboxes g ++ rotate_checkboxes g ->
          ui' !! h = ui !! h).
Proof.
  intros Ht. pose proof Ht as Hsome.
  apply toggle_all_checkboxes_spec in Ht as (hc & all_value & Hc & Hq & Hlen & Hlook).
  exists hc, all_value. split; [assumption|]. split; [assumption|].
  split; [assumption|]. split.
  - intros h Hin. specialize (Hlook h). rewrite decide_True in Hlook by assumption.
    split; [|assumption]. rewrite (checkBox_query_lookup ui ui' h all_value Hlook).
    destruct (checkBox_query ui h) as [b|] eqn:Hb; [reflexivity|]. exfalso.
    unfold toggle_all_checkboxes in Hsome. rewrite Hc in Hsome. cbn in Hsome.
    rewrite Hq in Hsome. cbn in Hsome.
    assert (Hnone : edit_checkBoxes ui
                      (translate_checkboxes g ++ rotate_checkboxes g) all_value
                    = None) by (apply edit_checkBoxes_None; eauto).
    congruence.
  - intros h Hnin. specialize (Hlook h). now rewrite decide_False in Hlook.
Qed.

Lemma toggle_all_checkboxes_effect_witness :
  exists hc all_value,
    check_all (st_globals cleared_panel) = Some hc
    /\ checkBox_query (st_ui cleared_panel) hc = Some all_value
    /\ length (st_ui cleared_panel) = length (st_ui cleared_panel)
    /\ (forall h, h ∈ [2; 3; 4; 5; 6; 7]%nat ->
          checkBox_query (st_ui cleared_panel) h = Some all_value
          /\ st_ui cleared_panel !! h
             = with_value all_value <$> st_ui cleared_panel !! h)
    /\ (forall h, h ∉ [2; 3; 4; 5; 6; 7]%nat ->
          st_ui cleared_panel !! h = st_ui cleared_panel !! h).
Proof.
  exact (toggle_all_checkboxes_effect (st_globals cleared_panel)
           (st_ui cleared_panel) (st_ui cleared_panel) eq_refl).
Defined.

(** X5: [toggle_all_checkboxes] raises exactly when "Check All" cannot be
    queried (no handle, or a handle that is not a check box) or one of the
    listed handles is not a check box. *)
Theorem toggle_all_checkboxes_raises (g : Globals) (ui : UI) :
  toggle_all_checkboxes g ui = None
  <-> (check_all g ≫= checkBox_query ui) = None
      \/ exists h, h ∈ translate_checkboxes g ++ rotate_checkboxes g
                   /\ checkBox_query ui h = None.
Proof.
  unfold toggle_all_checkboxes.
  destruct (check_all g) as [hc|]; cbn; [|split; auto].
  destruct (checkBox_query ui hc) as [all_value|]; cbn; [|split; auto].
  rewrite edit_checkBoxes_None. split; [auto|]. intros [Habs|?]; [discriminate|auto].
Qed.

(** X6: running [toggle_all_checkboxes] a second time changes nothing. *)
Theorem toggle_all_checkboxes_idempotent (g : Globals) (ui ui' : UI) :
  toggle_all_checkboxes g ui = Some ui' ->
  toggle_all_checkboxes g ui' = Some ui'.
Proof.
  intros Ht. pose proof Ht as Hsome.
  apply toggle_all_checkboxes_spec in Ht as (hc & all_value & Hc & Hq & Hlen & Hlook).
  set (hs := translate_checkboxes g ++ rotate_checkboxes g) in *.
  assert (Hlisted : forall h, h ∈ hs -> checkBox_query ui' h = Some all_value).
  { intros h Hin. specialize (Hlook h). rewrite decide_True in Hlook by assumption.
    rewrite (checkBox_query_lookup ui ui' h all_value Hlook).
    destruct (checkBox_query ui h) as [b|] eqn:Hb; [reflexivity|]. exfalso.
    unfold toggle_all_checkboxes in Hsome. rewrite Hc in Hsome. cbn in Hsome.
    rewrite Hq in Hsome. cbn in Hsome. fold hs in Hsome.
    assert (Hnone : edit_checkBoxes ui hs all_value = None)
      by (apply edit_checkBoxes_None; eauto).
    congruence. }
  assert (Hq' : checkBox_query ui' hc = Some all_value).
  { destruct (decide (hc ∈ hs)) as [Hin|Hnin]; [auto|].
    specialize (Hlook hc). rewrite decide_False in Hlook by assumption.
    rewrite (checkBox_query_ext ui ui' hc Hlook). exact Hq. }
  unfold toggle_all_checkboxes. rewrite Hc. cbn. rewrite Hq'. cbn. fold hs.
  destruct (edit_checkBoxes ui' hs all_value) as [ui''|] eqn:He.
  - f_equal. apply edit_checkBoxes_spec in He as [_ Hlook'].
    apply list_eq. intros h. rewrite Hlook'.
    destruct (decide (h ∈ hs)) as [Hin|]; [|reflexivity].
    unfold handle, UI in *. rewrite !(Hlook h), decide_True by assumption.
    destruct (ui !! h) as [w|]; cbn; [|reflexivity]. now rewrite with_value_idemp.
  - apply edit_checkBoxes_None in He as (h & Hin & Hnone).
    rewrite (Hlisted h Hin) in Hnone. discriminate.
Qed.

Lemma toggle_all_checkboxes_idempotent_witness :
  toggle_all_checkboxes (st_globals cleared_panel) (st_ui cleared_panel)
  = Some (st_ui cleared_panel).
Proof.
  exact (toggle_all_checkboxes_idempotent (st_globals cleared_panel)
           (st_ui cleared_panel) (st_ui cleared_panel) eq_refl).
Defined.

(** X7: [create_window] never raises and forgets the panel it replaces: from
    any state it builds the same controls, and the request of the first
    button press has intensity 0.1, all six channels (the boxes are created
    clear and then set by the closing call of [toggle_all_checkboxes]) and no
    colour flag; [slider] and [color_checkboxes] keep their old value. *)
Theorem create_window_defaults (st : State) (direction : Z) :
  exists st',
    create_window st = Some st'
    /\ st_ui st' = st_ui fresh_panel
    /\ slider (st_globals st') = slider (st_globals st)
    /\ color_checkboxes (st_globals st') = color_checkboxes (st_globals st)
    /\ request (st_globals st') (st_ui st') direction
       = Some {| req_intensity := one_tenth;
                 req_direction := direction;
                 req_channels := channels;
                 req_color := false |}.
Proof.
  eexists. split; [apply create_window_result|]. repeat split.
Qed.

(** ** Further properties of the computation *)

(** X12: a NaN in the value, the velocity or the intensity makes the result
    NaN. *)
Theorem calculate_overshoot_nan (value velocity intensity : float) :
  PyFloat.is_nan value = true \/ PyFloat.is_nan velocity = true
  \/ PyFloat.is_nan intensity = true ->
  PyFloat.is_nan (calculate_overshoot value velocity intensity) = true.
Proof.
  unfold calculate_overshoot.
  intros [H|[H|H]].
  - destruct value; try discriminate. reflexivity.
  - destruct velocity; try discriminate.
    cbn. destruct value; reflexivity.
  - destruct intensity; try discriminate.
    assert (Hm : PyFloat.mul velocity S754_nan = S754_nan)
      by (destruct velocity; reflexivity).
    rewrite Hm. destruct value; reflexivity.
Qed.

Lemma calculate_overshoot_nan_witness :
  PyFloat.is_nan (calculate_overshoot (PyFloat.of_int 1) PyFloat.nan one_half) = true.
Proof.
  apply (calculate_overshoot_nan (PyFloat.of_int 1) PyFloat.nan one_half).
  right. left. reflexivity.
Defined.

(** Two finite numbers that compare equal have a zero as difference. *)
Lemma sub_equal_finite (p n : float) :
  PyFloat.is_finite p = true -> PyFloat.eqb p n = true ->
  PyFloat.is_zero (PyFloat.sub n p) = true.
Proof.
  destruct p as [sp| | |sp mp ep], n as [sn|sn| |sn mn en]; try discriminate;
    intros _; unfold PyFloat.eqb, SFeqb; cbn; try discriminate;
    try (destruct sn; discriminate); try (destruct sp; discriminate).
  - intros _. destruct sn, sp; reflexivity.
  - intros Heq.
    assert (sn = sp /\ en = ep /\ mn = mp) as (-> & -> & ->).
    { change (PosDef.Pos.compare_cont Eq mp mn) with (Pos.compare mp mn) in Heq.
      destruct sp, sn; try discriminate;
        destruct (Z.compare_spec ep en); try discriminate;
        destruct (Pos.compare_spec mp mn); try discriminate; auto. }
    rewrite Z.min_id, Z.sub_diag. reflexivity.
Qed.

(** X11: on a processed channel whose two neighbouring keys hold equal finite
    values, with a finite intensity, the value written compares equal to the
    current value: the call leaves the value as it is, yet keys it. *)
Theorem equal_values_keep_value (s : Scene) (direction : Z) (intensity : float)
    (obj attr : string) (previous_key next_key : float) :
  findKeyframe s obj attr previous (currentTime s) = Some previous_key ->
  findKeyframe s obj attr next (currentTime s) = Some next_key ->
  PyFloat.eqb previous_key next_key = false ->
  PyFloat.is_finite (getAttr s (plug obj attr) previous_key) = true ->
  PyFloat.eqb (getAttr s (plug obj attr) previous_key)
    (getAttr s (plug obj attr) next_key) = true ->
  direction = 1 \/ direction = -1 ->
  PyFloat.is_finite intensity = true ->
  PyFloat.is_nan (getAttr s (plug obj attr) (currentTime s)) = false ->
  exists v,
    channel_value s direction (currentTime s) intensity obj attr = Some v
    /\ PyFloat.eqb v (getAttr s (plug obj attr) (currentTime s)) = true.
Proof.
  intros Hp Hn Hne Hfin Heq Hd Hi Hc. eexists.
  unfold channel_value. rewrite Hp, Hn, Hne. cbn [negb]. split; [reflexivity|].
  apply add_zero_r; [assumption|].
  pose proof (sub_equal_finite _ _ Hfin Heq) as Hz.
  destruct (PyFloat.sub _ _) as [sz| | |]; try discriminate.
  assert (Hv : PyFloat.is_zero (PyFloat.mul (S754_zero sz) (PyFloat.of_int direction))
               = true) by (destruct Hd as [-> | ->]; reflexivity).
  destruct (PyFloat.mul (S754_zero sz) _) as [sv| | |]; try discriminate.
  destruct intensity; try discriminate; reflexivity.
Qed.

Lemma equal_values_keep_value_witness :
  exists v,
    channel_value flat_scene 1 (currentTime flat_scene) one_half
      "pCube1" "translateX" = Some v
    /\ PyFloat.eqb v (PyFloat.of_int 5) = true.
Proof.
  apply (equal_values_keep_value flat_scene 1 one_half "pCube1" "translateX"
           (PyFloat.of_int 1) (PyFloat.of_int 3)); try reflexivity.
  left. reflexivity.
Defined.

(** ** The keyed channels of a call *)

Lemma keyed_channels_app (l1 l2 : list HostCmd) :
  keyed_channels (l1 ++ l2) = keyed_channels l1 ++ keyed_channels l2.
Proof. apply omap_app. Qed.

Lemma keyed_channels_select (items : list string) (tr : list HostCmd) :
  keyed_channels (Select items :: tr) = keyed_channels tr.
Proof. reflexivity. Qed.

Lemma keyed_channels_write_attrs cur obj (obj_data : dict float) :
  keyed_channels (write_attrs cur obj obj_data)
  = (fun e => (obj, e.1)) <$> obj_data.
Proof.
  induction obj_data as [|[attr v] d IH]; [reflexivity|].
  unfold write_attrs in *. cbn. now rewrite <- IH.
Qed.

Lemma keyed_channels_object_cmds cur colored (entry : string * dict float) :
  keyed_channels (object_cmds cur colored entry)
  = (fun e => (entry.1, e.1)) <$> entry.2.
Proof.
  unfold object_cmds.
  rewrite keyed_channels_select, keyed_channels_app, keyed_channels_write_attrs.
  destruct colored; cbn; now rewrite app_nil_r.
Qed.

Lemma keyed_channels_flat_map cur colored (objects_data : dict (dict float)) :
  keyed_channels (flat_map (object_cmds cur colored) objects_data)
  = flat_map (fun entry => (fun e => (entry.1, e.1)) <$> entry.2) objects_data.
Proof.
  induction objects_data as [|entry d IH]; [reflexivity|].
  cbn [flat_map]. now rewrite keyed_channels_app, keyed_channels_object_cmds, IH.
Qed.

Lemma keyed_channels_run_request (s : Scene) (r : Request) :
  keyed_channels (run_request s r)
  = flat_map (fun entry => (fun e => (entry.1, e.1)) <$> entry.2)
      (dict_collect (object_entry s r) (ls_selection s) []).
Proof.
  unfold run_request.
  rewrite keyed_channels_select, keyed_channels_app, keyed_channels_flat_map.
  cbn. apply app_nil_r.
Qed.

Lemma dict_set_keys {V : Type} (d : dict V) (k : string) (v : V) :
  (dict_set d k v).*1 = if decide (k ∈ d.*1) then d.*1 else d.*1 ++ [k].
Proof.
  induction d as [|[k' v'] d IH]; cbn.
  - destruct (decide (k ∈ [])) as [Hin|_]; [inversion Hin|reflexivity].
  - destruct (decide (k' = k)) as [->|Hne]; cbn.
    + now rewrite decide_True by apply list_elem_of_here.
    + rewrite IH. destruct (decide (k ∈ d.*1)) as [Hin|Hnin].
      * now rewrite decide_True by (apply list_elem_of_further; assumption).
      * rewrite decide_False; [reflexivity|].
        intros Hin. apply elem_of_cons in Hin as [?|?]; [congruence|contradiction].
Qed.

(** A dictionary never holds a key twice. *)
Lemma dict_collect_NoDup {V : Type} (f : string -> option V) xs : forall d0,
  NoDup d0.*1 -> NoDup (dict_collect f xs d0).*1.
Proof.
  induction xs as [|x xs IH]; intros d0 Hd0; [exact Hd0|].
  rewrite dict_collect_cons. apply IH. destruct (f x) as [v|]; [|exact Hd0].
  rewrite dict_set_keys. destruct (decide (x ∈ d0.*1)) as [|Hnin]; [exact Hd0|].
  apply NoDup_app. split; [exact Hd0|]. split; [|apply NoDup_singleton].
  intros y Hy Hy'. apply list_elem_of_singleton in Hy'. congruence.
Qed.

Lemma NoDup_keyed (objects_data : dict (dict float)) :
  NoDup objects_data.*1 ->
  (forall entry, entry ∈ objects_data -> NoDup entry.2.*1) ->
  NoDup (flat_map (fun entry => (fun e => (entry.1, e.1)) <$> entry.2) objects_data).
Proof.
  induction objects_data as [|[obj od] d IH]; intros Hkeys Hall; cbn.
  - apply NoDup_nil_2.
  - cbn in Hkeys. apply NoDup_cons in Hkeys as [Hobj Hkeys].
    apply NoDup_app. split; [|split].
    + assert (Hod : NoDup od.*1) by apply (Hall (obj, od)), list_elem_of_here.
      clear -Hod. induction od as [|[a v] od IHod]; cbn; [apply NoDup_nil_2|].
      cbn in Hod. apply NoDup_cons in Hod as [Ha Hod].
      apply NoDup_cons. split; [|auto].
      intros Hin. apply list_elem_of_fmap in Hin as ([a' v'] & [= <-] & Hin).
      apply Ha, list_elem_of_fmap. exists (a, v'). auto.
    + intros [obj' a] Hin Hin'.
      apply list_elem_of_fmap in Hin as (e & [= -> ->] & _).
      apply list_elem_of_In, in_flat_map in Hin' as ([obj'' od'] & Hd & He).
      apply list_elem_of_In, list_elem_of_fmap in He as (e' & [= <- _] & _).
      apply Hobj, list_elem_of_fmap. exists (obj, od').
      split; [reflexivity|]. apply list_elem_of_In, Hd.
    + apply IH; [assumption|]. intros entry Hin.
      apply Hall, list_elem_of_further, Hin.
Qed.

Lemma object_entry_NoDup s r obj obj_data :
  object_entry s r obj = Some obj_data -> NoDup obj_data.*1.
Proof.
  unfold object_entry. destruct (listAttr s obj) as [attrs|]; [|discriminate].
  pose proof (dict_collect_NoDup (attr_entry s r obj) attrs [] (NoDup_nil_2 (A := string))) as Hnd.
  destruct (dict_collect _ attrs []); [discriminate|]. now intros [= <-].
Qed.

(** X8: a call keys no channel twice, even when the host lists an object
    twice in the selection or an attribute twice among the keyable ones: the
    dictionaries of lines 44 and 52 keep one entry per key. *)
Theorem no_channel_keyed_twice (g : Globals) (ui : UI) (s : Scene) (direction : Z) :
  panel_ready g ui = true ->
  exists tr,
    apply_overshoot g ui s direction = Some tr /\ NoDup (keyed_channels tr).
Proof.
  intros Hready.
  destruct (apply_overshoot_closed g ui s direction Hready) as (r & Hr & Htr).
  exists (run_request s r). split; [assumption|].
  rewrite keyed_channels_run_request. apply NoDup_keyed.
  - apply dict_collect_NoDup, NoDup_nil_2.
  - intros [obj od] Hin. apply dict_collect_nil_spec in Hin as [_ He].
    exact (object_entry_NoDup _ _ _ _ He).
Qed.

Lemma no_channel_keyed_twice_witness :
  exists tr,
    apply_overshoot (st_globals fresh_panel) (st_ui fresh_panel)
      twice_selected_scene 1 = Some tr
    /\ NoDup (keyed_channels tr).
Proof.
  exact (no_channel_keyed_twice (st_globals fresh_panel) (st_ui fresh_panel)
           twice_selected_scene 1 eq_refl).
Defined.

Lemma channel_value_guard s direction intensity obj attr :
  is_Some (channel_value s direction (currentTime s) intensity obj attr)
  <-> key_guard s obj attr = true.
Proof.
  unfold channel_value, key_guard.
  destruct (findKeyframe s obj attr previous (currentTime s)) as [pk|];
    destruct (findKeyframe s obj attr next (currentTime s)) as [nk|];
    try (split; [intros [? ?]|]; discriminate).
  destruct (negb (PyFloat.eqb pk nk)); split; eauto;
    try discriminate; intros [? ?]; discriminate.
Qed.

Lemma elem_of_keyed_channels (tr : list HostCmd) (obj attr : string) :
  (obj, attr) ∈ keyed_channels tr
  <-> exists t v, SetKeyframe obj attr t v ∈ tr.
Proof.
  unfold keyed_channels. rewrite list_elem_of_omap. split.
  - intros (c & Hin & Hc). destruct c; try discriminate.
    injection Hc as -> ->. eauto.
  - intros (t & v & Hin). eauto.
Qed.

Lemma processed_other_direction g ui s d d' obj attr v :
  processed g ui s d obj attr v -> exists v', processed g ui s d' obj attr v'.
Proof.
  intros (Hsel & Hattrs & Hch & Hck & h & i & Hh & Hi & Hv).
  assert (Hsome : is_Some (channel_value s d' (currentTime s) i obj attr)).
  { apply channel_value_guard.
    apply (channel_value_guard s d i obj attr). eauto. }
  destruct Hsome as [v' Hv']. exists v'. repeat split; eauto 10.
Qed.

(** X10: the two buttons key the same channels: a channel gets a keyframe
    from [overshoot_positive] exactly when it gets one from
    [overshoot_negative]. *)
Theorem both_directions_key_same_channels (g : Globals) (ui : UI) (s : Scene) :
  panel_ready g ui = true ->
  exists trp trn,
    overshoot_positive g ui s = Some trp
    /\ overshoot_negative g ui s = Some trn
    /\ forall obj attr,
        (obj, attr) ∈ keyed_channels trp <-> (obj, attr) ∈ keyed_channels trn.
Proof.
  intros Hready. unfold overshoot_positive, overshoot_negative.
  destruct (apply_overshoot_closed g ui s 1 Hready) as (rp & Hrp & Htrp).
  destruct (apply_overshoot_closed g ui s (-1) Hready) as (rn & Hrn & Htrn).
  exists (run_request s rp), (run_request s rn).
  split; [assumption|]. split; [assumption|].
  assert (Hhalf : forall d d' r r',
             request g ui d = Some r -> request g ui d' = Some r' ->
             forall obj attr,
               (obj, attr) ∈ keyed_channels (run_request s r) ->
               (obj, attr) ∈ keyed_channels (run_request s r')).
  { intros d d' r r' Hr Hr' obj attr Hin.
    apply elem_of_keyed_channels in Hin as (t & v & Hin).
    apply (writes_of_request g ui s d r (SetKeyframe obj attr t v) Hr eq_refl)
      in Hin as (obj0 & attr0 & v0 & Hp & [Hc|Hc]); [discriminate Hc|].
    injection Hc as -> -> _ _.
    destruct (processed_other_direction g ui s d d' _ _ _ Hp) as [v' Hp'].
    apply elem_of_keyed_channels. exists (currentTime s), v'.
    apply (writes_of_request g ui s d' r'
             (SetKeyframe obj0 attr0 (currentTime s) v') Hr' eq_refl). eauto 10. }
  intros obj attr. split; eauto.
Qed.

Lemma both_directions_key_same_channels_witness :
  exists trp trn,
    overshoot_positive (st_globals half_panel) (st_ui half_panel) moving_scene
    = Some trp
    /\ overshoot_negative (st_globals half_panel) (st_ui half_panel) moving_scene
       = Some trn
    /\ forall obj attr,
        (obj, attr) ∈ keyed_channels trp <-> (obj, attr) ∈ keyed_channels trn.
Proof.
  exact (both_directions_key_same_channels (st_globals half_panel)
           (st_ui half_panel) moving_scene eq_refl).
Defined.

Lemma dict_set_fresh {V : Type} (d : dict V) (k : string) (v : V) :
  k ∉ d.*1 -> dict_set d k v = d ++ [(k, v)].
Proof.
  induction d as [|[k' v'] d IH]; cbn; intros Hnin; [reflexivity|].
  rewrite decide_False.
  - rewrite IH; [reflexivity|]. intros Hin. apply Hnin, list_elem_of_further, Hin.
  - intros ->. apply Hnin, list_elem_of_here.
Qed.

(** Without repeated keys the loop appends its entries in the order of the
    list. *)
Lemma dict_collect_NoDup_closed {V : Type} (f : string -> option V) xs : forall d0,
  NoDup xs -> (forall x, x ∈ xs -> x ∉ d0.*1) ->
  dict_collect f xs d0 = d0 ++ omap (fun x => (fun v => (x, v)) <$> f x) xs.
Proof.
  induction xs as [|x xs IH]; intros d0 Hnd Hfresh.
  - cbn. now rewrite app_nil_r.
  - apply NoDup_cons in Hnd as [Hx Hnd]. rewrite dict_collect_cons.
    cbn [omap list_omap]. destruct (f x) as [v|]; cbn.
    + rewrite dict_set_fresh by (apply Hfresh, list_elem_of_here).
      rewrite IH; [now rewrite <- app_assoc|assumption|].
      intros y Hy. rewrite fmap_app, elem_of_app. cbn. intros [Hin|Hin].
      * apply (Hfresh y); [apply list_elem_of_further|]; assumption.
      * apply list_elem_of_singleton in Hin. congruence.
    + apply IH; [assumption|]. intros y Hy. apply Hfresh, list_elem_of_further, Hy.
Qed.

Lemma keys_of_entries {V : Type} (P : string -> Prop) `{!forall a, Decision (P a)}
    (f : string -> option V) (obj : string) (attrs : list string) :
  (forall a, is_Some (f a) <-> P a) ->
  (fun e : string * V => (obj, e.1)) <$> omap (fun a => (fun v => (a, v)) <$> f a) attrs
  = (fun a => (obj, a)) <$> filter P attrs.
Proof.
  intros Hiff. induction attrs as [|a attrs IH]; [reflexivity|].
  cbn [omap list_omap]. rewrite filter_cons.
  destruct (f a) as [v|] eqn:Hfa; cbn.
  - rewrite decide_True by (apply Hiff; rewrite Hfa; eauto). cbn. now rewrite IH.
  - rewrite decide_False; [exact IH|].
    intros HP. apply Hiff in HP as [? HP]. congruence.
Qed.

(** X13: with the colour flag off, and when the host lists no object twice
    in the selection and no attribute twice for an object, the call sends no
    MEL script and its keyframe insertions are sent object by object in the
    order of the selection and, for an object, in the order of its keyable
    attributes, on exactly the channels that are among the six, checked, and
    have two neighbouring keys at different times. *)
Theorem keyframes_in_selection_order (g : Globals) (ui : UI) (s : Scene)
    (direction : Z) :
  panel_ready g ui = true ->
  color_flag g ui = Some false ->
  NoDup (ls_selection s) ->
  (forall obj attrs, listAttr s obj = Some attrs -> NoDup attrs) ->
  exists tr,
    apply_overshoot g ui s direction = Some tr
    /\ keyed_channels tr = written_channels g ui s
    /\ forall script, MelEval script ∉ tr.
Proof.
  intros Hready Hoff Hsel Hattrs.
  destruct (apply_overshoot_closed g ui s direction Hready) as (r & Hr & Htr).
  exists (run_request s r). split; [assumption|].
  split.
  2:{ intros script. apply no_mel_without_color.
      rewrite (color_flag_request _ _ _ _ Hr) in Hoff. congruence. }
  destruct (request_fields _ _ _ _ Hr) as (_ & _ & _ & _ & _ & _ & Hd & Hen).
  rewrite keyed_channels_run_request.
  rewrite dict_collect_NoDup_closed by (try assumption; intros ? _ Hin; inversion Hin).
  cbn [app]. unfold written_channels.
  induction (ls_selection s) as [|obj objs IH]; [reflexivity|].
  cbn [omap list_omap flat_map]. rewrite <- IH by (now apply NoDup_cons in Hsel).
  clear IH.
  assert (Hone :
    match object_entry s r obj with
    | Some od => (fun e : string * float => (obj, e.1)) <$> od
    | None => []
    end
    = (fun attr => (obj, attr))
        <$> filter (fun attr => attr ∈ channels
                                /\ channel_checked g ui attr = Some true
                                /\ key_guard s obj attr = true)
              (default [] (listAttr s obj))).
  { unfold object_entry. destruct (listAttr s obj) as [attrs|] eqn:Hl; [|reflexivity].
    cbn [default].
    rewrite dict_collect_NoDup_closed
      by (try (eapply Hattrs; eassumption); intros ? _ Hin; inversion Hin).
    cbn [app].
    rewrite <- (keys_of_entries _ (attr_entry s r obj) obj attrs).
    - destruct (omap _ attrs); reflexivity.
    - intros a. unfold attr_entry. rewrite Hen, Hd.
      case_bool_decide as Hin.
      + unfold enabled_channels in Hin. apply list_elem_of_filter in Hin as [? ?].
        rewrite channel_value_guard. tauto.
      + split; [intros [? ?]; discriminate|]. intros (? & ? & _). exfalso.
        apply Hin. unfold enabled_channels. apply list_elem_of_filter. tauto. }
  rewrite <- Hone. destruct (object_entry s r obj); reflexivity.
Qed.

Lemma keyframes_in_selection_order_witness :
  exists tr,
    apply_overshoot (st_globals fresh_panel) (st_ui fresh_panel) two_objects_scene 1
    = Some tr
    /\ keyed_channels tr
       = [("pCube1", "rotateZ"); ("pCube1", "translateX");
          ("pSphere1", "rotateZ"); ("pSphere1", "translateX")]%string
    /\ forall script, MelEval script ∉ tr.
Proof.
  apply (keyframes_in_selection_order (st_globals fresh_panel) (st_ui fresh_panel)
           two_objects_scene 1 eq_refl eq_refl).
  - apply NoDup_ListNoDup. repeat constructor; cbn; intuition discriminate.
  - intros obj attrs [= <-].
    apply NoDup_ListNoDup. repeat constructor; cbn; intuition discriminate.
Defined.

(** ** The selection during the write loop *)

Lemma write_attrs_selection cur obj (obj_data : dict float) (tail : list HostCmd) :
  Forall under_own_selection (selection_trace [obj] tail) ->
  Forall under_own_selection
    (selection_trace [obj] (write_attrs cur obj obj_data ++ tail))
  /\ selection_after [obj] (write_attrs cur obj obj_data ++ tail)
     = selection_after [obj] tail.
Proof.
  intros Htail. induction obj_data as [|[attr v] d [IH1 IH2]]; [auto|].
  unfold write_attrs in *. cbn. split; [|exact IH2].
  repeat apply Forall_cons_2; [| |exact IH1].
  - exists obj, attr. auto.
  - reflexivity.
Qed.

Lemma object_cmds_selection cur colored (entry : string * dict float) sel :
  Forall under_own_selection (selection_trace sel (object_cmds cur colored entry))
  /\ selection_after sel (object_cmds cur colored entry) = [entry.1].
Proof.
  destruct entry as [obj od]. unfold object_cmds. cbn [fst snd selection_trace].
  unfold selection_after. cbn [foldl selection_step].
  destruct (write_attrs_selection cur obj od
              (if colored then [MelEval mel_script] else [])) as [H1 H2].
  { destruct colored; cbn; [|constructor].
    apply Forall_cons_2; [|constructor]. exists obj. reflexivity. }
  split.
  - apply Forall_cons_2; [exact I|exact H1].
  - unfold selection_after in H2. rewrite H2. now destruct colored.
Qed.

Lemma flat_map_selection cur colored (objects_data : dict (dict float)) : forall sel,
  Forall under_own_selection
    (selection_trace sel (flat_map (object_cmds cur colored) objects_data)).
Proof.
  induction objects_data as [|entry d IH]; intros sel; [constructor|].
  cbn [flat_map]. rewrite selection_trace_app. apply Forall_app. split.
  - apply object_cmds_selection.
  - apply IH.
Qed.

(** X9: throughout a call, every attribute write and every keyframe
    insertion finds its own object as the whole active selection, and so does
    the MEL script of the colour flag, which acts on the selection. *)
Theorem writes_under_own_selection (g : Globals) (ui : UI) (s : Scene)
    (direction : Z) :
  panel_ready g ui = true ->
  exists tr,
    apply_overshoot g ui s direction = Some tr
    /\ forall sel, Forall under_own_selection (selection_trace sel tr).
Proof.
  intros Hready.
  destruct (apply_overshoot_closed g ui s direction Hready) as (r & Hr & Htr).
  exists (run_request s r). split; [assumption|]. intros sel.
  unfold run_request. cbn [selection_trace].
  apply Forall_cons_2; [exact I|]. rewrite selection_trace_app.
  apply Forall_app. split; [apply flat_map_selection|].
  cbn. repeat apply Forall_cons_2; try exact I. constructor.
Qed.

Lemma writes_under_own_selection_witness :
  exists tr,
    apply_overshoot (st_globals fresh_panel) (st_ui fresh_panel) two_objects_scene 1
    = Some tr
    /\ Forall under_own_selection (selection_trace [] tr).
Proof.
  destruct (writes_under_own_selection (st_globals fresh_panel) (st_ui fresh_panel)
              two_objects_scene 1 eq_refl) as (tr & Htr & Hall).
  exists tr. split; [assumption|apply Hall].
Defined.

(** ** The channel boxes *)

(** X14: in every panel the user can bring about, the dictionary of lines
    34-41 maps each channel to the check box that [create_window] labelled
    for it, and that box has no change command: when the user sets it, the
    channel is enabled or disabled accordingly, the other channels and every
    other control ("Check All" included) stay as they are. *)
Theorem channel_boxes (st : State) :
  reachable st ->
  exists acb,
    attribute_checkboxes (st_globals st) = Some acb
    /\ forall attr label,
        (attr, label) ∈ channel_labels ->
        exists h v,
          acb !! attr = Some h
          /\ st_ui st !! h = Some (CheckBox label v None)
          /\ forall b, exists st',
              user_sets_checkBox st h b = Some st'
              /\ st_globals st' = st_globals st
              /\ channel_checked (st_globals st') (st_ui st') attr = Some b
              /\ (forall attr', attr' ∈ channels -> attr' <> attr ->
                    channel_checked (st_globals st') (st_ui st') attr'
                    = channel_checked (st_globals st) (st_ui st) attr')
              /\ (forall h', h' <> h -> st_ui st' !! h' = st_ui st !! h').
Proof.
  intros Hreach. apply reachable_inv in Hreach
    as [Hg (mx & v & all & tx & ty & tz & rx & ry & rz & green & Hui & _)].
  destruct Hg as (_ & _ & Ht & Hr & _).
  unfold attribute_checkboxes. rewrite Ht, Hr. eexists. split; [reflexivity|].
  intros attr label Hin. unfold channel_labels in Hin.
  repeat (apply elem_of_cons in Hin as [[= -> ->]|Hin]); [..|inversion Hin].
  all: eexists _, _; split; [reflexivity|]; rewrite Hui;
    split; [reflexivity|]; intros b; unfold user_sets_checkBox; rewrite Hui;
    cbn [lookup list_lookup panel_ui]; eexists; split; [reflexivity|];
    split; [reflexivity|]; cbn [st_globals st_ui];
    unfold channel_checked, attribute_checkboxes; rewrite Ht, Hr;
    split; [reflexivity|]; split;
    [ intros attr' Hin' Hne; unfold channels in Hin';
      repeat (apply elem_of_cons in Hin' as [->|Hin']);
      try (inversion Hin'; fail); try contradiction; reflexivity
    | intros h' Hne; apply list_lookup_insert_ne; congruence ].
Qed.

Lemma channel_boxes_witness :
  exists st',
    user_sets_checkBox fresh_panel 5%nat false = Some st'
    /\ channel_checked (st_globals st') (st_ui st') "rotateX" = Some false
    /\ channel_checked (st_globals st') (st_ui st') "translateX" = Some true.
Proof.
  destruct (channel_boxes fresh_panel (reach_create initial_state fresh_panel eq_refl))
    as (acb & Hacb & Hall).
  destruct (Hall "rotateX"%string "Rotate X"%string) as (h & v & Hh & _ & Hset).
  { do 3 apply list_elem_of_further. apply list_elem_of_here. }
  vm_compute in Hacb. injection Hacb as <-. vm_compute in Hh. injection Hh as <-.
  destruct (Hset false) as (st' & Hs & _ & Hck & Hother & _).
  exists st'. split; [exact Hs|]. split; [exact Hck|].
  rewrite Hother; [reflexivity|apply list_elem_of_here|discriminate].
Defined.
